(** * Dense single-precision matrix multiplication: host reference,
      direct kernel and tiled kernel

    A shallow embedding of [matmult.cu], of the inline helpers of its header
    ([Mat], [MatInit], [MatGetElement], [MatSetElement], [MatGetSubMatrix],
    [MatMultElement], [BLOCK_SIZE]) and of the fillers of [tests/test00.cu].

    - [float] is IEEE 754 binary32, computed by the Standard Library's
      specification of floating-point arithmetic at precision 24 and maximal
      exponent 128 (round to nearest, ties to even; one NaN).
    - [int] values are integers of [Z]; signed overflow is undefined in C and
      is not part of the model.  Conversions between [int], [unsigned] and
      [size_t], which are defined, are written out ([uint32], [int32],
      [size_t]).
    - Memory is a finite map from buffer identifiers to buffers; a pointer is
      a buffer identifier and an offset counted in floats.  A buffer records
      where it lives (host memory, device memory, the scratch memory of one
      thread block) and, for each cell, its value once it has one.
    - A computation either finishes, stops at a failed [assert], or has no
      defined behaviour (an access outside a buffer, through [NULL], to a cell
      that has no value yet, or from the wrong side of the host/device
      boundary). *)

From Stdlib Require Import ZArith Lia Bool.
From Stdlib Require Import Floats.SpecFloat.
From stdpp Require Import base tactics option list list_numbers gmap.

Local Open Scope Z_scope.

(** [lia] is to handle division and remainder by constants. *)
Ltac Zify.zify_post_hook ::= Z.to_euclidean_division_equations.

(** ** Scalars: binary32 *)

Module F32.

Definition prec : Z := 24.
Definition emax : Z := 128.

Definition float : Type := spec_float.

Definition zero : float := S754_zero false.
Definition one : float := S754_finite false 8388608 (-23).

Definition add : float → float → float := SFadd prec emax.
Definition sub : float → float → float := SFsub prec emax.
Definition mul : float → float → float := SFmul prec emax.
Definition abs : float → float := SFabs.

(** [gt x y] is the C comparison [x > y]: false as soon as one side is NaN. *)
Definition gt (x y : float) : bool := SFltb y x.

(** [x != y] and [x == y] of C. *)
Definition eqb (x y : float) : bool := SFeqb x y.

(** The values a [float] object can hold. *)
Definition valid (x : float) : bool := valid_binary prec emax x.

(** Conversion of a [double] (given by its integer mantissa and exponent) to
    [float]. *)
Definition of_double (s : bool) (m : positive) (e : Z) : float :=
  binary_round prec emax s m e.

(** Conversion of an [int] to [float]. *)
Definition of_int (z : Z) : float :=
  binary_normalize prec emax z 0 false.

(** Infinities and NaN. *)
Definition nonfinite (x : float) : bool :=
  match x with
  | S754_infinity _ | S754_nan => true
  | _ => false
  end.

(** [0 + x]: [x] itself, except that [-0] becomes [+0]. *)
Definition canon (x : float) : float := add zero x.

(** Every float but [-0]. *)
Definition canonical (x : float) : bool :=
  match x with
  | S754_zero true => false
  | _ => true
  end.

(** The [double] literal [1e-10] is 7737125245533627 * 2^-86; passed for a
    [float] parameter it becomes 14411519 * 2^-57. *)
Definition tol_1e_10 : float := of_double false 7737125245533627 (-86).

End F32.

Abbreviation float := F32.float.

(** ** Integer conversions *)

Definition uint32 (z : Z) : Z := z mod 2 ^ 32.
Definition int32 (z : Z) : Z := (z + 2 ^ 31) mod 2 ^ 32 - 2 ^ 31.
Definition size_t (z : Z) : Z := z mod 2 ^ 64.
Definition sizeof_float : Z := 4.

(** Thread block size *)
Definition BLOCK_SIZE : Z := 4.

(** ** Memory *)

Inductive residency := HostMem | DeviceMem | SharedMem.
Inductive side := OnHost | OnDevice.

Global Instance residency_eq_dec : EqDecision residency.
Proof. solve_decision. Defined.

Definition accessible (sd : side) (r : residency) : bool :=
  match sd, r with
  | OnHost, HostMem => true
  | OnDevice, DeviceMem => true
  | OnDevice, SharedMem => true
  | _, _ => false
  end.

Record buffer := Buffer { b_res : residency; b_data : list (option float) }.

Record ptr := Ptr { p_blk : nat; p_off : Z }.

Abbreviation mem := (gmap nat buffer).

(** [&p[k]] *)
Definition ptr_add (p : ptr) (k : Z) : ptr :=
  {| p_blk := p_blk p; p_off := p_off p + k |}.

(** [p[i]] read from side [sd]; a pointer of type [float*] is [NULL] ([None])
    or a [ptr]. *)
Definition load (sd : side) (m : mem) (p : option ptr) (i : Z) : option float :=
  q ← p;
  b ← m !! p_blk q;
  if accessible sd (b_res b) && (0 <=? p_off q + i)
  then b_data b !! Z.to_nat (p_off q + i) ≫= id
  else None.

(** [p[i] = v] *)
Definition store (sd : side) (m : mem) (p : option ptr) (i : Z) (v : float)
  : option mem :=
  q ← p;
  b ← m !! p_blk q;
  if accessible sd (b_res b) && (0 <=? p_off q + i)
     && (Z.to_nat (p_off q + i) <? length (b_data b))%nat
  then Some (<[p_blk q := Buffer (b_res b)
                 (<[Z.to_nat (p_off q + i) := Some v]> (b_data b))]> m)
  else None.

(** ** Computations *)

Inductive outcome (A : Type) : Type :=
| Done (a : A) (m : mem)   (* finished with result [a] in memory [m] *)
| Abort (m : mem)          (* an [assert] failed in memory [m] *)
| Undef.                   (* no defined behaviour *)
Arguments Done {A} a m.
Arguments Abort {A} m.
Arguments Undef {A}.

Definition M (A : Type) : Type := mem → outcome A.

Definition ret {A} (a : A) : M A := λ m, Done a m.

Definition bind {A B} (c : M A) (k : A → M B) : M B :=
  λ m, match c m with
       | Done a m' => k a m'
       | Abort m' => Abort m'
       | Undef => Undef
       end.

Notation "'do' x <- c ; k" := (bind c (λ x, k))
  (at level 10, x name, c at level 100, k at level 200,
   format "'[v' 'do'  x  <-  c ; '/' k ']'").
Notation "c ;; k" := (bind c (λ _, k))
  (at level 100, k at level 200, right associativity).

Definition assert (b : bool) : M unit :=
  λ m, if b then Done tt m else Abort m.

(** A read-only computation. *)
Definition read {A} (f : mem → option A) : M A :=
  λ m, match f m with Some a => Done a m | None => Undef end.

(** A computation that updates memory. *)
Definition write (f : mem → option mem) : M unit :=
  λ m, match f m with Some m' => Done tt m' | None => Undef end.

(** [for (x in l) body(x)] *)
Fixpoint forM_ {A} (l : list A) (body : A → M unit) : M unit :=
  match l with
  | [] => ret tt
  | x :: l' => body x ;; forM_ l' body
  end.

(** [for (int k = 0; k < n; k++) body(k)] *)
Definition for_lt (n : Z) (body : Z → M unit) : M unit :=
  forM_ (seqZ 0 n) body.

(** A loop that threads a local variable [s] through its iterations. *)
Fixpoint foldM {A S} (l : list A) (body : A → S → M S) (s : S) : M S :=
  match l with
  | [] => ret s
  | x :: l' => do s' <- body x s; foldM l' body s'
  end.

(** The same for a loop that only reads memory. *)
Fixpoint foldO {A S} (l : list A) (body : A → S → option S) (s : S)
  : option S :=
  match l with
  | [] => Some s
  | x :: l' =>
      match body x s with
      | Some s' => foldO l' body s'
      | None => None
      end
  end.

(** A read-only loop whose body may [return false]; falling off the end of
    the loop gives [true]. *)
Fixpoint allO {A} (l : list A) (body : A → option bool) : option bool :=
  match l with
  | [] => Some true
  | x :: l' =>
      match body x with
      | Some true => allO l' body
      | Some false => Some false
      | None => None
      end
  end.

(** ** Matrix descriptors *)

Record Mat := {
  width : Z;
  height : Z;
  size : Z;
  stride : Z;
  elements : option ptr;
  elements_malloc : option ptr;
  elements_cudaMalloc : option ptr
}.

(** [MatInit] assigns every field of [*X]; the descriptor it leaves there does
    not depend on the previous one. *)
Definition MatInit (height width : Z) : Mat :=
  {| height := height;
     width := width;
     stride := width;
     size := size_t (height * width * sizeof_float);
     elements := None;
     elements_malloc := None;
     elements_cudaMalloc := None |}.

Definition set_elements (X : Mat) (p : option ptr) : Mat :=
  {| height := height X; width := width X; stride := stride X;
     size := size X; elements := p;
     elements_malloc := elements_malloc X;
     elements_cudaMalloc := elements_cudaMalloc X |}.

Definition set_stride (X : Mat) (s : Z) : Mat :=
  {| height := height X; width := width X; stride := s;
     size := size X; elements := elements X;
     elements_malloc := elements_malloc X;
     elements_cudaMalloc := elements_cudaMalloc X |}.

(** Get a matrix element: [A->elements[r * A->stride + c]] *)
Definition MatGetElement (sd : side) (m : mem) (A : Mat) (r c : Z)
  : option float :=
  load sd m (elements A) (r * stride A + c).

(** Set a matrix element *)
Definition MatSetElement (sd : side) (A : Mat) (r c : Z) (value : float)
  : M unit :=
  write (λ m, store sd m (elements A) (r * stride A + c) value).

(** [GetSubMatrix] of matmult.cu: the view is returned by value. *)
Definition GetSubMatrix (A : Mat) (R C blockSize : Z) : Mat :=
  let Asub := MatInit blockSize blockSize in
  let Asub := set_stride Asub (stride A) in
  set_elements Asub
    (p ← elements A; Some (ptr_add p (R * stride A * blockSize + C * blockSize))).

(** [MatGetSubMatrix] of the header: the view is written into [*Asub], after
    the assertion on the two ownership fields of [*Asub]. *)
Definition MatGetSubMatrix (A : Mat) (R C blockSize : Z) (Asub : Mat) : M Mat :=
  assert (bool_decide (elements_cudaMalloc Asub = None)
          && bool_decide (elements_malloc Asub = None)) ;;
  let Asub := set_stride Asub (stride A) in
  ret (set_elements Asub
         (p ← elements A;
          Some (ptr_add p (R * stride A * blockSize + C * blockSize)))).

(** C_{r,c} = \sum_{k=0}^{w-1} A_{r,k} B_{k,c} *)
Definition MatMultElement (sd : side) (m : mem) (A B : Mat) (r c : Z)
  : option float :=
  foldO (seqZ 0 (width A))
    (λ k C_rc,
       a ← load sd m (elements A) (r * stride A + k);
       b ← load sd m (elements B) (k * stride B + c);
       Some (F32.add C_rc (F32.mul a b)))
    F32.zero.

(** ** Allocation and block transfers *)

(** [malloc], [cudaMalloc] and the scratch memory of a starting thread block:
    a new buffer of [nbytes] bytes in residency [r]; its cells have no value
    yet. *)
Definition alloc (r : residency) (nbytes : Z) : M (option ptr) :=
  λ m, let b := fresh (dom m) in
       Done (Some (Ptr b 0))
            (<[b := Buffer r (replicate (Z.to_nat (nbytes / sizeof_float)) None)]> m).

(** The cells [p[0..n-1]] of a buffer that lives in [r]. *)
Definition get_range (r : residency) (p : option ptr) (n : nat) (m : mem)
  : option (list (option float)) :=
  q ← p;
  b ← m !! p_blk q;
  if bool_decide (b_res b = r) && (0 <=? p_off q)
     && (Z.to_nat (p_off q) + n <=? length (b_data b))%nat
  then Some (take n (drop (Z.to_nat (p_off q)) (b_data b)))
  else None.

(** Overwrite the cells [p[0..length vals-1]] of a buffer that lives in [r]. *)
Definition set_range (r : residency) (p : option ptr)
    (vals : list (option float)) (m : mem) : option mem :=
  q ← p;
  b ← m !! p_blk q;
  if bool_decide (b_res b = r) && (0 <=? p_off q)
     && (Z.to_nat (p_off q) + length vals <=? length (b_data b))%nat
  then Some (<[p_blk q := Buffer (b_res b)
                 (take (Z.to_nat (p_off q)) (b_data b) ++ vals ++
                  drop (Z.to_nat (p_off q) + length vals) (b_data b))]> m)
  else None.

(** [memset(p, 0, nbytes)] and [cudaMemset(p, 0, nbytes)]: all-zero bytes are
    the float [+0]. *)
Definition memset0 (r : residency) (p : option ptr) (nbytes : Z) : M unit :=
  write (set_range r p
           (replicate (Z.to_nat (nbytes / sizeof_float)) (Some F32.zero))).

Inductive cudaMemcpyKind := cudaMemcpyHostToDevice | cudaMemcpyDeviceToHost.

Definition kind_src (k : cudaMemcpyKind) : residency :=
  match k with
  | cudaMemcpyHostToDevice => HostMem
  | cudaMemcpyDeviceToHost => DeviceMem
  end.

Definition kind_dst (k : cudaMemcpyKind) : residency :=
  match k with
  | cudaMemcpyHostToDevice => DeviceMem
  | cudaMemcpyDeviceToHost => HostMem
  end.

Definition cudaMemcpy (dst src : option ptr) (nbytes : Z) (k : cudaMemcpyKind)
  : M unit :=
  do vals <- read (get_range (kind_src k) src (Z.to_nat (nbytes / sizeof_float)));
  write (set_range (kind_dst k) dst vals).

(** Release of a whole buffer that lives in [r] ([cudaFree], and the scratch
    memory of a finished thread block); [NULL] is accepted. *)
Definition release (r : residency) (p : option ptr) : M unit :=
  write (λ m,
    match p with
    | None => Some m
    | Some q =>
        b ← m !! p_blk q;
        if bool_decide (b_res b = r) && (p_off q =? 0)
        then Some (delete (p_blk q) m)
        else None
    end).

Definition cudaFree : option ptr → M unit := release DeviceMem.

Definition MatInitHost (height width : Z) : M Mat :=
  let X := MatInit height width in
  do p <- alloc HostMem (size X);
  let X := set_elements X p in
  memset0 HostMem (elements X) (size X) ;;
  ret X.

Definition MatInitGPU (height width : Z) : M Mat :=
  let X := MatInit height width in
  do p <- alloc DeviceMem (size X);
  let X := set_elements X p in
  memset0 DeviceMem (elements X) (size X) ;;
  ret X.

(** ** Kernels *)

(** [dim3] and [uint3]; the third component is 1 everywhere in this program. *)
Record dim3 := Dim3 { dim_x : Z; dim_y : Z }.

(** The blocks of a grid and the threads of a block. *)
Definition grid_blocks (gridDim : dim3) : list dim3 :=
  by_ ← seqZ 0 (dim_y gridDim); bx ← seqZ 0 (dim_x gridDim); [Dim3 bx by_].

Definition block_threads (blockDim : dim3) : list dim3 :=
  ty ← seqZ 0 (dim_y blockDim); tx ← seqZ 0 (dim_x blockDim); [Dim3 tx ty].

(** The limits of a launch: CUDA accepts a grid of at most [2^31 - 1] blocks
    along x and 65535 blocks along y, and a block of at most 1024 threads
    (devices of compute capability 3.0 and later). *)
Definition maxGridSize : dim3 := Dim3 (2 ^ 31 - 1) 65535.
Definition maxThreadsPerBlock : Z := 1024.

Definition launch_accepted (gridDim blockDim : dim3) : bool :=
  (dim_x gridDim <=? dim_x maxGridSize) && (dim_y gridDim <=? dim_y maxGridSize)
  && (dim_x blockDim * dim_y blockDim <=? maxThreadsPerBlock).

(** [kernel<<<gridDim, blockDim>>>] for a kernel without barriers: every
    thread of every block runs the kernel body.  A launch beyond the limits
    fails and runs nothing; the error is left for [cudaGetLastError], which
    this program never calls.  (So is a launch with an empty grid, which runs
    nothing either way.) *)
Definition launch (gridDim blockDim : dim3) (kernel : dim3 → dim3 → M unit)
  : M unit :=
  if launch_accepted gridDim blockDim then
    forM_ (grid_blocks gridDim)
      (λ blockIdx,
         forM_ (block_threads blockDim) (λ threadIdx, kernel blockIdx threadIdx))
  else ret tt.

(** Matrix multiplication kernel called by MatMultGPU() - basic version *)
Definition MatMult_k0 (A B C : Mat) (blockDim blockIdx threadIdx : dim3)
  : M unit :=
  (* Each thread computes one element of C *)
  let r := int32 (uint32 (dim_y blockIdx * dim_y blockDim + dim_y threadIdx)) in
  let c := int32 (uint32 (dim_x blockIdx * dim_x blockDim + dim_x threadIdx)) in
  do v <- read (λ m, MatMultElement OnDevice m A B r c);
  MatSetElement OnDevice C r c v.

(** Matrix multiplication kernel called by MatMultGPU() - optimized version.

    The body is given for one thread block.  Its threads meet at every
    [__syncthreads()], so the block runs in phases: in a phase every thread
    runs its code up to the next barrier.  A thread is its index and its
    private [Csub_rc]. *)
Definition MatMult_k1 (MatA MatB MatC : Mat) (blockDim blockIdx : dim3)
    (sharedMemSize : Z) : M unit :=
  do sharedMemory <- alloc SharedMem sharedMemSize;
  let R := int32 (dim_y blockIdx) in
  let C := int32 (dim_x blockIdx) in
  let w := int32 (dim_x blockDim) in
  if bool_decide (w = 0) then (λ _, Undef) else
  let W := width MatA `quot` w in
  let Asubs := sharedMemory in
  let Bsubs :=
    p ← sharedMemory;
    Some (ptr_add p (size_t (w * w * sizeof_float) / sizeof_float)) in
  let Csub := GetSubMatrix MatC R C w in
  (* Each thread computes one element of Csub *)
  let threads := (λ t, (t, F32.zero)) <$> block_threads blockDim in
  (* C_{R,C} = \sum_{K=0}^{W-1} A_{R,K} B_{K,C} *)
  do threads <-
    foldM (seqZ 0 W)
      (λ K threads,
         let Asub := GetSubMatrix MatA R K w in
         let Bsub := GetSubMatrix MatB K C w in
         (* __syncthreads() *)
         forM_ threads
           (λ '(threadIdx, _),
              let r := int32 (dim_y threadIdx) in
              let c := int32 (dim_x threadIdx) in
              do a <- read (λ m, MatGetElement OnDevice m Asub r c);
              write (λ m, store OnDevice m Asubs (r * w + c) a) ;;
              do b <- read (λ m, MatGetElement OnDevice m Bsub r c);
              write (λ m, store OnDevice m Bsubs (r * w + c) b)) ;;
         (* __syncthreads() *)
         read (λ m,
           mapM (λ '(threadIdx, Csub_rc),
                   let r := int32 (dim_y threadIdx) in
                   let c := int32 (dim_x threadIdx) in
                   (* Csub_{r,c} = \sum_{k=0}^{w-1} A_{r,k} B_{k,c} *)
                   Csub_rc ←
                     foldO (seqZ 0 w)
                       (λ k Csub_rc,
                          a ← load OnDevice m Asubs (r * w + k);
                          b ← load OnDevice m Bsubs (k * w + c);
                          Some (F32.add Csub_rc (F32.mul a b)))
                       Csub_rc;
                   Some (threadIdx, Csub_rc))
                threads))
      threads;
  forM_ threads
    (λ '(threadIdx, Csub_rc),
       let r := int32 (dim_y threadIdx) in
       let c := int32 (dim_x threadIdx) in
       MatSetElement OnDevice Csub r c Csub_rc) ;;
  release SharedMem sharedMemory.

(** [MatMult_k1<<<gridDim, blockDim, sharedMemSize>>>] *)
Definition launch_k1 (gridDim blockDim : dim3) (sharedMemSize : Z)
    (MatA MatB MatC : Mat) : M unit :=
  if launch_accepted gridDim blockDim then
    forM_ (grid_blocks gridDim)
      (λ blockIdx, MatMult_k1 MatA MatB MatC blockDim blockIdx sharedMemSize)
  else ret tt.

(** ** Host entry points *)

(** The launch configuration of [MatMultGPU]. *)
Definition dimBlock : dim3 := Dim3 (uint32 BLOCK_SIZE) (uint32 BLOCK_SIZE).

Definition dimGrid (A B : Mat) : dim3 :=
  Dim3 (uint32 (width B) / dim_x dimBlock) (uint32 (height A) / dim_y dimBlock).

Definition MatMultGPU (A B C : Mat) (optimized : bool) : M unit :=
  assert (width A =? height B) ;;
  assert (height A =? height C) ;;
  assert (width B =? width C) ;;
  (* Load A to device memory *)
  do d_A <- MatInitGPU (height A) (width A);
  cudaMemcpy (elements d_A) (elements A) (size A) cudaMemcpyHostToDevice ;;
  (* Load B to device memory *)
  do d_B <- MatInitGPU (height B) (width B);
  cudaMemcpy (elements d_B) (elements B) (size B) cudaMemcpyHostToDevice ;;
  (* Allocate C in device memory *)
  do d_C <- MatInitGPU (height C) (width C);
  (* Invoke kernel *)
  let dimBlock := dimBlock in
  let dimGrid := dimGrid A B in
  (if optimized then
     (* Total size for As and Bs *)
     let sharedMemSize :=
       size_t (uint32 (uint32 (2 * dim_x dimBlock) * dim_y dimBlock)
               * sizeof_float) in
     launch_k1 dimGrid dimBlock sharedMemSize d_A d_B d_C
   else
     launch dimGrid dimBlock (MatMult_k0 d_A d_B d_C dimBlock)) ;;
  (* Read C from device memory *)
  cudaMemcpy (elements C) (elements d_C) (size C) cudaMemcpyDeviceToHost ;;
  (* Free device memory *)
  cudaFree (elements d_A) ;;
  cudaFree (elements d_B) ;;
  cudaFree (elements d_C).

Definition MatMultHost (A B C : Mat) : M unit :=
  assert (width A =? height B) ;;
  assert (height A =? height C) ;;
  assert (width B =? width C) ;;
  for_lt (height A) (λ r,
    for_lt (width B) (λ c,
      do v <- read (λ m, MatMultElement OnHost m A B r c);
      MatSetElement OnHost C r c v)).

(** The test of [MatEqual] on one pair of elements:
    [fabs(a - b) > tol] is false. *)
Definition within_tol (tol a b : float) : bool :=
  negb (F32.gt (F32.abs (F32.sub a b)) tol).

Definition MatEqual (A B : Mat) (tol : float) (m : mem) : option bool :=
  if negb (height A =? height B) || negb (width A =? width B)
  then Some false
  else
    allO (seqZ 0 (height A)) (λ r,
      allO (seqZ 0 (width A)) (λ c,
        a ← MatGetElement OnHost m A r c;
        b ← MatGetElement OnHost m B r c;
        if F32.gt (F32.abs (F32.sub a b)) tol then Some false else Some true)).

(** ** The fillers of the test *)

Definition MatFillX (X : Mat) : M unit :=
  for_lt (height X) (λ r,
    for_lt (width X) (λ c,
      MatSetElement OnHost X r c
        (if r + c =? width X - 1 then F32.one else F32.zero))).

Definition MatFillY (X : Mat) : M unit :=
  for_lt (height X) (λ r,
    for_lt (width X) (λ c,
      MatSetElement OnHost X r c
        (F32.add (F32.mul (F32.of_int r) (F32.of_int (width X))) (F32.of_int c)))).

(** ** Specification-level notions *)

(** [sum from k = k0 to k0+n-1 of a k * b k], added to [acc] from left to
    right in binary32. *)
Definition dot_from (acc : float) (a b : Z → float) (k0 n : Z) : float :=
  foldl (λ s k, F32.add s (F32.mul (a k) (b k))) acc (seqZ k0 n).

(** The dot product [sum from k = 0 to n-1 of a k * b k]. *)
Definition dot_product (a b : Z → float) (n : Z) : float :=
  dot_from F32.zero a b 0 n.

(** The element at [(r, c)], for a matrix whose element there has a value. *)
Definition elem (sd : side) (m : mem) (X : Mat) (r c : Z) : float :=
  default F32.zero (MatGetElement sd m X r c).

(** The positions [(r, c)] of a matrix, row by row. *)
Definition cells (X : Mat) : list (Z * Z) :=
  r ← seqZ 0 (height X); c ← seqZ 0 (width X); [(r, c)].

(** [p[i]] is a cell of a buffer that side [sd] may access. *)
Definition in_bounds (sd : side) (m : mem) (p : option ptr) (i : Z) : bool :=
  match p with
  | None => false
  | Some q =>
      match m !! p_blk q with
      | None => false
      | Some b =>
          accessible sd (b_res b) && (0 <=? p_off q + i)
          && (Z.to_nat (p_off q + i) <? length (b_data b))%nat
      end
  end.

(** [p] points into a buffer that side [sd] may access, or just past its
    end. *)
Definition points_into (sd : side) (m : mem) (p : option ptr) : bool :=
  match p with
  | None => false
  | Some q =>
      match m !! p_blk q with
      | None => false
      | Some b =>
          accessible sd (b_res b) && (0 <=? p_off q)
          && (p_off q <=? Z.of_nat (length (b_data b)))
      end
  end.

(** A descriptor whose elements can all be written from side [sd]: it points
    into a buffer of that side, rows do not overlap, and every position lies
    inside the buffer. *)
Definition writable (sd : side) (m : mem) (X : Mat) : bool :=
  (0 <=? height X) && (0 <=? width X) && (width X <=? stride X)
  && points_into sd m (elements X)
  && forallb (λ rc, in_bounds sd m (elements X) (rc.1 * stride X + rc.2))
       (cells X).

(** A descriptor whose elements can moreover all be read: each has a value. *)
Definition readable (sd : side) (m : mem) (X : Mat) : bool :=
  writable sd m X
  && forallb (λ rc, bool_decide (is_Some (MatGetElement sd m X rc.1 rc.2)))
       (cells X).

(** The buffer a descriptor points into. *)
Definition blk_of (X : Mat) : option nat := p_blk <$> elements X.


(** [multiple_of T n]: [n] is an exact multiple of the tile size [T]. *)
Definition multiple_of (T n : Z) : bool := n mod T =? 0.

(** [X[r,c] = 1] if [r + c == width - 1], else 0. *)
Definition antidiagonal (X : Z → Z → float) (n : Z) : Prop :=
  ∀ r c, 0 ≤ r < n → 0 ≤ c < n →
    X r c = if r + c =? n - 1 then F32.one else F32.zero.

(** No [assert] of a computation can fail. *)
Definition no_abort {A} (c : M A) : Prop := ∀ m m', c m ≠ Abort m'.

(** The element [(r, c)] of the product of [A] and [B] as they are in memory
    [m]: the dot product of row [r] of [A] and column [c] of [B]. *)
Definition product (sd : side) (m : mem) (A B : Mat) (r c : Z) : float :=
  dot_product (elem sd m A r) (λ k, elem sd m B k c) (width A).

(** The cell of the buffer that holds element [rc] of [X], for [X] pointing
    at [q]. *)
Definition cell_index (X : Mat) (q : ptr) (rc : Z * Z) : nat :=
  Z.to_nat (p_off q + (rc.1 * stride X + rc.2)).

(** [updated m0 m X f cs]: memory [m] is memory [m0] in which the elements of
    [X] at the positions [cs] have been set to the values [f] gives them;
    every other cell of every buffer is as in [m0], and no buffer has been
    added, removed, resized or moved. *)
Definition updated (m0 m : mem) (X : Mat) (f : Z → Z → float)
    (cs : list (Z * Z)) : Prop :=
  ∃ q b data,
    elements X = Some q
    ∧ m0 !! p_blk q = Some b
    ∧ m = <[p_blk q := Buffer (b_res b) data]> m0
    ∧ length data = length (b_data b)
    ∧ (∀ rc, rc ∈ cs → rc ∈ cells X)
    ∧ (∀ rc, rc ∈ cs → data !! cell_index X q rc = Some (Some (f rc.1 rc.2)))
    ∧ (∀ j, (∀ rc, rc ∈ cs → j ≠ cell_index X q rc) →
            data !! j = b_data b !! j).

(** The element of the result that the thread [threadIdx] of the block
    [blockIdx] is in charge of. *)
Definition worker_cell (blockDim : dim3) (w : dim3 * dim3) : Z * Z :=
  (int32 (uint32 (dim_y w.1 * dim_y blockDim + dim_y w.2)),
   int32 (uint32 (dim_x w.1 * dim_x blockDim + dim_x w.2))).

(** All the threads of a launch, each with its block. *)
Definition workers (gridDim blockDim : dim3) : list (dim3 * dim3) :=
  blockIdx ← grid_blocks gridDim;
  threadIdx ← block_threads blockDim;
  [(blockIdx, threadIdx)].

(** One cell of one buffer. *)
Definition cell_at (m : mem) (k j : nat) : option (option float) :=
  b ← m !! k; b_data b !! j.

(** The scratch memory of a block of [w * w] threads, seen as one matrix of
    [2 * w] rows of [w] floats: rows [0 .. w-1] are [Asubs] and rows
    [w .. 2w-1] are [Bsubs]. *)
Definition scratch (sh : ptr) (w : Z) : Mat :=
  {| width := w; height := 2 * w; size := size_t (2 * w * w * sizeof_float);
     stride := w; elements := Some sh;
     elements_malloc := None; elements_cudaMalloc := None |}.

(** What the block [(R, C)] has staged there in iteration [K], between the
    second barrier of that iteration and the first one of the next: the tile
    [(R, K)] of [dA] and the tile [(K, C)] of [dB]. *)
Definition staged (md : mem) (dA dB : Mat) (R C K w : Z) (r c : Z) : float :=
  if r <? w
  then elem OnDevice md dA (R * w + r) (K * w + c)
  else elem OnDevice md dB (K * w + (r - w)) (C * w + c).

(** The shared-memory size [MatMultGPU] asks for. *)
Definition sharedMemSize : Z :=
  size_t (uint32 (uint32 (2 * dim_x dimBlock) * dim_y dimBlock) * sizeof_float).


(** Every element of [Y] is a value a [float] object can hold. *)
Definition all_valid (sd : side) (m : mem) (Y : Mat) : bool :=
  forallb (λ rc, F32.valid (elem sd m Y rc.1 rc.2)) (cells Y).

(** The values [MatFillX] writes. *)
Definition fill_X (n : Z) (r c : Z) : float :=
  if r + c =? n - 1 then F32.one else F32.zero.

(** Row [r] of the [n x n] antidiagonal matrix times the column [y], in
    binary32: [y (n - 1 - r)] with [-0] read as [+0], or NaN when some other
    element of the column is an infinity or a NaN (for [0 * inf] and
    [0 * NaN] are NaN). *)
Definition reversed (y : Z → float) (n r : Z) : float :=
  if existsb (λ k, negb (k =? n - 1 - r) && F32.nonfinite (y k)) (seqZ 0 n)
  then S754_nan
  else F32.canon (y (n - 1 - r)).

Global Instance float_eq_dec : EqDecision spec_float.
Proof. solve_decision. Defined.

(** ** A small scenario, after [tests/test00.cu]

    [X] is the 4 x 4 antidiagonal matrix, [Y] the 4 x 8 matrix with
    [Y[r,c] = r * 8 + c], and [Z] and [Y1] are 4 x 8 results, all made by
    [MatInitHost] in an empty memory. *)
Module Scenario.

Definition setup : outcome (Mat * Mat * Mat * Mat) :=
  (do X <- MatInitHost 4 4;
   MatFillX X ;;
   do Y <- MatInitHost 4 8;
   MatFillY Y ;;
   do Z <- MatInitHost 4 8;
   do Y1 <- MatInitHost 4 8;
   ret (X, Y, Z, Y1)) ∅.

Definition mats : Mat * Mat * Mat * Mat :=
  match setup with
  | Done a _ => a
  | _ => (MatInit 0 0, MatInit 0 0, MatInit 0 0, MatInit 0 0)
  end.

Definition m : mem := match setup with Done _ m => m | _ => ∅ end.

Definition X : Mat := mats.1.1.1.
Definition Y : Mat := mats.1.1.2.
Definition Z : Mat := mats.1.2.
Definition Y1 : Mat := mats.2.

End Scenario.

(** [main] of [tests/test00.cu] up to its last assertion, with [M = 8] and
    [N = 12].  The matrices are made by [MatInitHost]; the calls of
    [MatPrint] and [MatFree] are left out. *)
Definition test00_main : M unit :=
  do X <- MatInitHost 8 8;
  MatFillX X ;;
  do Y <- MatInitHost 8 12;
  MatFillY Y ;;
  do Z <- MatInitHost 8 12;
  MatMultHost X Y Z ;;
  do e <- read (MatEqual Y Z F32.tol_1e_10);
  assert (negb e) ;;
  do Y1 <- MatInitHost 8 12;
  MatMultHost X Z Y1 ;;
  do e <- read (MatEqual Y1 Y F32.tol_1e_10);
  assert e ;;
  do Z_gpu_0 <- MatInitHost 8 12;
  MatMultGPU X Y Z_gpu_0 false ;;
  do e <- read (MatEqual Z_gpu_0 Z F32.tol_1e_10);
  assert e ;;
  do Z_gpu_1 <- MatInitHost 8 12;
  MatMultGPU X Y Z_gpu_1 true ;;
  do e <- read (MatEqual Z_gpu_1 Z F32.tol_1e_10);
  assert e.

(** ** Notions for launches on matrices of any size *)


(** The largest multiple of [T] that is at most [n]. *)
Definition round_down (T n : Z) : Z := T * (n / T).


(** ** A scenario with sizes that are no multiples of [BLOCK_SIZE]

    [A] is 5 x 6 and [B] is 6 x 7, both filled by [MatFillY]; [C] is a 5 x 7
    result; all three are made by [MatInitHost] in an empty memory. *)
Module Ragged.

Definition setup : outcome (Mat * Mat * Mat) :=
  (do A <- MatInitHost 5 6;
   MatFillY A ;;
   do B <- MatInitHost 6 7;
   MatFillY B ;;
   do C <- MatInitHost 5 7;
   ret (A, B, C)) ∅.

Definition mats : Mat * Mat * Mat :=
  match setup with
  | Done a _ => a
  | _ => (MatInit 0 0, MatInit 0 0, MatInit 0 0)
  end.

Definition m : mem := match setup with Done _ m => m | _ => ∅ end.

Definition A : Mat := mats.1.1.
Definition B : Mat := mats.1.2.
Definition C : Mat := mats.2.

End Ragged.

(** ** Host and device runs side by side *)

(** The memory a run ends in. *)
Definition final (o : outcome unit) : mem :=
  match o with Done _ m => m | _ => ∅ end.



(** ** A scenario with views and shared buffers

    [P] is 4 x 4 with [P[r,c] = r * 4 + c], [Q] is the 4 x 4 antidiagonal
    matrix, [W] is 4 x 8 with [W[r,c] = r * 8 + c], [R] and [R8] are a 4 x 4
    and a 4 x 8 result, all made by [MatInitHost] in an empty memory; [Wv] and
    [Rv] are the 4 x 4 views of [W] and [R8] at block (0, 0), of stride 8. *)
Module Layouts.

Definition setup : outcome (Mat * Mat * Mat * Mat * Mat) :=
  (do P <- MatInitHost 4 4;
   MatFillY P ;;
   do Q <- MatInitHost 4 4;
   MatFillX Q ;;
   do W <- MatInitHost 4 8;
   MatFillY W ;;
   do R <- MatInitHost 4 4;
   do R8 <- MatInitHost 4 8;
   ret (P, Q, W, R, R8)) ∅.

Definition mats : Mat * Mat * Mat * Mat * Mat :=
  match setup with
  | Done a _ => a
  | _ => (MatInit 0 0, MatInit 0 0, MatInit 0 0, MatInit 0 0, MatInit 0 0)
  end.

Definition m : mem := match setup with Done _ m => m | _ => ∅ end.

Definition P : Mat := mats.1.1.1.1.
Definition Q : Mat := mats.1.1.1.2.
Definition W : Mat := mats.1.1.2.
Definition R : Mat := mats.1.2.
Definition R8 : Mat := mats.2.

End Layouts.

(** ** Matrices too tall for one grid

    [A] is [h] x 4 and [B] is 4 x 4, both all ones, and [C] is an [h] x 4
    result, each filling a host buffer of its own.  With [h = 262144] the
    grid of [MatMultGPU] has 65536 rows of blocks. *)
Module Tall.

Definition ones (n : Z) : buffer :=
  Buffer HostMem (replicate (Z.to_nat n) (Some F32.one)).

Definition zeros (n : Z) : buffer :=
  Buffer HostMem (replicate (Z.to_nat n) (Some F32.zero)).

Definition m (h : Z) : mem :=
  <[0%nat := ones (h * 4)]> (<[1%nat := ones 16]> (<[2%nat := zeros (h * 4)]> ∅)).

Definition A (h : Z) : Mat := set_elements (MatInit h 4) (Some (Ptr 0 0)).
Definition B : Mat := set_elements (MatInit 4 4) (Some (Ptr 1 0)).
Definition C (h : Z) : Mat := set_elements (MatInit h 4) (Some (Ptr 2 0)).

End Tall.

(** ** A product computed in place

    [A = [1 2; 3 4]] and [B = [5 6; 7 8]], made by [MatInitHost] in an empty
    memory. *)
Module InPlace.

Definition setup : outcome (Mat * Mat) :=
  (do A <- MatInitHost 2 2;
   MatSetElement OnHost A 0 0 (F32.of_int 1) ;;
   MatSetElement OnHost A 0 1 (F32.of_int 2) ;;
   MatSetElement OnHost A 1 0 (F32.of_int 3) ;;
   MatSetElement OnHost A 1 1 (F32.of_int 4) ;;
   do B <- MatInitHost 2 2;
   MatSetElement OnHost B 0 0 (F32.of_int 5) ;;
   MatSetElement OnHost B 0 1 (F32.of_int 6) ;;
   MatSetElement OnHost B 1 0 (F32.of_int 7) ;;
   MatSetElement OnHost B 1 1 (F32.of_int 8) ;;
   ret (A, B)) ∅.

Definition mats : Mat * Mat :=
  match setup with Done a _ => a | _ => (MatInit 0 0, MatInit 0 0) end.

Definition m : mem := match setup with Done _ m => m | _ => ∅ end.

Definition A : Mat := mats.1.
Definition B : Mat := mats.2.

End InPlace.

(** ** The scenario of the test on the device

    The device copies of [Scenario.X] and [Scenario.Y] and a device result,
    made as [MatMultGPU] makes them. *)
Module OnGPU.

Definition setup : outcome (Mat * Mat * Mat) :=
  (do d_A <- MatInitGPU (height Scenario.X) (width Scenario.X);
   cudaMemcpy (elements d_A) (elements Scenario.X) (size Scenario.X)
     cudaMemcpyHostToDevice ;;
   do d_B <- MatInitGPU (height Scenario.Y) (width Scenario.Y);
   cudaMemcpy (elements d_B) (elements Scenario.Y) (size Scenario.Y)
     cudaMemcpyHostToDevice ;;
   do d_C <- MatInitGPU (height Scenario.Z) (width Scenario.Z);
   ret (d_A, d_B, d_C)) Scenario.m.

Definition mats : Mat * Mat * Mat :=
  match setup with
  | Done a _ => a
  | _ => (MatInit 0 0, MatInit 0 0, MatInit 0 0)
  end.

Definition m : mem := match setup with Done _ m => m | _ => ∅ end.

Definition A : Mat := mats.1.1.
Definition B : Mat := mats.1.2.
Definition C : Mat := mats.2.

End OnGPU.

(** ** Finite values *)

(** The zeros and the other finite numbers a [float] object can hold. *)
Definition finite (x : float) : bool :=
  F32.valid x && negb (F32.nonfinite x).

(** Every element of [Y] is finite. *)
Definition all_finite (sd : side) (m : mem) (Y : Mat) : bool :=
  forallb (λ rc, finite (elem sd m Y rc.1 rc.2)) (cells Y).

(** ** Two round trips of the test that go wrong

    [X], [Z] and [Y1] are 2 x 2, made by [MatInitHost] in an empty memory, and
    [Y] is [[inf 1; 2 3]] in [Unbounded] and [[2^-100 0; 0 0]] in [Tiny]. *)
Module Unbounded.

Definition setup : outcome (Mat * Mat * Mat * Mat) :=
  (do X <- MatInitHost 2 2;
   do Y <- MatInitHost 2 2;
   MatSetElement OnHost Y 0 0 (S754_infinity false) ;;
   MatSetElement OnHost Y 0 1 (F32.of_int 1) ;;
   MatSetElement OnHost Y 1 0 (F32.of_int 2) ;;
   MatSetElement OnHost Y 1 1 (F32.of_int 3) ;;
   do Z <- MatInitHost 2 2;
   do Y1 <- MatInitHost 2 2;
   ret (X, Y, Z, Y1)) ∅.

Definition mats : Mat * Mat * Mat * Mat :=
  match setup with
  | Done a _ => a
  | _ => (MatInit 0 0, MatInit 0 0, MatInit 0 0, MatInit 0 0)
  end.

Definition m : mem := match setup with Done _ m => m | _ => ∅ end.

Definition X : Mat := mats.1.1.1.
Definition Y : Mat := mats.1.1.2.
Definition Z : Mat := mats.1.2.
Definition Y1 : Mat := mats.2.

(** [X] filled, then [Z = X * Y], then [Y1 = X * Z]. *)
Definition run : outcome unit :=
  (MatFillX X ;; MatMultHost X Y Z ;; MatMultHost X Z Y1) m.

End Unbounded.

Module Tiny.

Definition setup : outcome (Mat * Mat * Mat * Mat) :=
  (do X <- MatInitHost 2 2;
   do Y <- MatInitHost 2 2;
   MatSetElement OnHost Y 0 0 (S754_finite false 8388608 (-123)) ;;
   do Z <- MatInitHost 2 2;
   do Y1 <- MatInitHost 2 2;
   ret (X, Y, Z, Y1)) ∅.

Definition mats : Mat * Mat * Mat * Mat :=
  match setup with
  | Done a _ => a
  | _ => (MatInit 0 0, MatInit 0 0, MatInit 0 0, MatInit 0 0)
  end.

Definition m : mem := match setup with Done _ m => m | _ => ∅ end.

Definition X : Mat := mats.1.1.1.
Definition Y : Mat := mats.1.1.2.
Definition Z : Mat := mats.1.2.
Definition Y1 : Mat := mats.2.

(** [X] filled, then [Z = X * Y]. *)
Definition run : outcome unit := (MatFillX X ;; MatMultHost X Y Z) m.

End Tiny.

(** ** Basic facts: computations *)


Lemma forM__app {A} (l1 l2 : list A) body m :
  forM_ (l1 ++ l2) body m = (forM_ l1 body ;; forM_ l2 body) m.
Proof.
  revert m. induction l1 as [|x l1 IH]; intros m; simpl.
  - reflexivity.
  - unfold bind in *. destruct (body x m); try reflexivity. apply IH.
Qed.

Lemma no_abort_ret {A} (a : A) : no_abort (ret a).
Proof. intros m m'. discriminate. Qed.

Lemma no_abort_bind {A B} (c : M A) (k : A → M B) :
  no_abort c → (∀ a, no_abort (k a)) → no_abort (bind c k).
Proof.
  intros Hc Hk m m'. unfold bind. destruct (c m) eqn:E.
  - apply Hk.
  - by apply Hc in E.
  - discriminate.
Qed.

Lemma no_abort_read {A} (f : mem → option A) : no_abort (read f).
Proof. intros m m'. unfold read. by destruct (f m). Qed.

Lemma no_abort_write f : no_abort (write f).
Proof. intros m m'. unfold write. by destruct (f m). Qed.

Lemma no_abort_forM_ {A} (l : list A) body :
  (∀ x, no_abort (body x)) → no_abort (forM_ l body).
Proof.
  intros Hb. induction l; simpl.
  - apply no_abort_ret.
  - apply no_abort_bind; auto.
Qed.

Lemma no_abort_foldM {A S} (l : list A) (body : A → S → M S) s :
  (∀ x s, no_abort (body x s)) → no_abort (foldM l body s).
Proof.
  intros Hb. revert s. induction l; intros s; simpl.
  - apply no_abort_ret.
  - apply no_abort_bind; auto.
Qed.

Lemma no_abort_alloc r n : no_abort (alloc r n).
Proof. intros m m'. discriminate. Qed.

Lemma no_abort_MatInitGPU h w : no_abort (MatInitGPU h w).
Proof.
  unfold MatInitGPU. apply no_abort_bind; [apply no_abort_alloc|]. intros p.
  apply no_abort_bind; [apply no_abort_write|]. intros _. apply no_abort_ret.
Qed.

Lemma no_abort_cudaMemcpy d s n k : no_abort (cudaMemcpy d s n k).
Proof.
  unfold cudaMemcpy. apply no_abort_bind; [apply no_abort_read|].
  intros. apply no_abort_write.
Qed.

Lemma no_abort_MatSetElement sd X r c v : no_abort (MatSetElement sd X r c v).
Proof. apply no_abort_write. Qed.

Lemma no_abort_MatMult_k1 A B C bd bi sz : no_abort (MatMult_k1 A B C bd bi sz).
Proof.
  unfold MatMult_k1. apply no_abort_bind; [apply no_abort_alloc|]. intros p.
  case_bool_decide; [intros m m'; discriminate|].
  apply no_abort_bind.
  - apply no_abort_foldM. intros K ths.
    apply no_abort_bind; [|intros; apply no_abort_read].
    apply no_abort_forM_. intros [t acc].
    apply no_abort_bind; [apply no_abort_read|]. intros a.
    apply no_abort_bind; [apply no_abort_write|]. intros _.
    apply no_abort_bind; [apply no_abort_read|]. intros b.
    apply no_abort_write.
  - intros ths. apply no_abort_bind; [|intros; apply no_abort_write].
    apply no_abort_forM_. intros [t acc]. apply no_abort_MatSetElement.
Qed.

Lemma no_abort_launch g b k :
  (∀ bi ti, no_abort (k bi ti)) → no_abort (launch g b k).
Proof.
  intros Hk. unfold launch.
  destruct (launch_accepted g b); [|apply no_abort_ret].
  apply no_abort_forM_. intros bi.
  apply no_abort_forM_. intros ti. apply Hk.
Qed.

Lemma no_abort_launch_k1 g b sz A B C : no_abort (launch_k1 g b sz A B C).
Proof.
  unfold launch_k1. destruct (launch_accepted g b); [|apply no_abort_ret].
  apply no_abort_forM_. intros bi. apply no_abort_MatMult_k1.
Qed.

Lemma no_abort_MatMult_k0 A B C bd bi ti : no_abort (MatMult_k0 A B C bd bi ti).
Proof.
  unfold MatMult_k0. apply no_abort_bind; [apply no_abort_read|].
  intros v. apply no_abort_MatSetElement.
Qed.

(** ** Shape checks *)

Ltac no_abort_step :=
  first
    [ apply no_abort_ret | apply no_abort_read | apply no_abort_write
    | apply no_abort_alloc | apply no_abort_MatInitGPU
    | apply no_abort_cudaMemcpy | apply no_abort_MatSetElement
    | apply no_abort_MatMult_k1 | apply no_abort_MatMult_k0
    | apply no_abort_launch; intros ? ?
    | apply no_abort_launch_k1
    | apply no_abort_forM_; intros ?
    | apply no_abort_bind; [|intros ?] ].

(** C3.  [MatMultHost] and [MatMultGPU] check the three shape equalities
    before anything else: if one of them fails, the call stops at the failed
    assertion in the memory it was entered with (nothing has been computed,
    allocated or copied); if all three hold, no assertion fails. *)
Theorem shape_check_fails_fast (A B C : Mat) (optimized : bool) (m : mem) :
  (¬ (width A = height B ∧ height A = height C ∧ width B = width C) →
     MatMultHost A B C m = Abort m ∧ MatMultGPU A B C optimized m = Abort m)
  ∧ (width A = height B ∧ height A = height C ∧ width B = width C →
     ∀ m', MatMultHost A B C m ≠ Abort m'
           ∧ MatMultGPU A B C optimized m ≠ Abort m').
Proof.
  split.
  - intros Hne. unfold MatMultHost, MatMultGPU, bind, assert.
    destruct (width A =? height B) eqn:E1; [|done].
    destruct (height A =? height C) eqn:E2; [|done].
    destruct (width B =? width C) eqn:E3; [|done].
    exfalso. apply Hne. lia.
  - intros (E1 & E2 & E3) m'. split.
    + unfold MatMultHost.
      unfold bind at 1 2 3. unfold assert.
      rewrite (proj2 (Z.eqb_eq _ _) E1), (proj2 (Z.eqb_eq _ _) E2),
        (proj2 (Z.eqb_eq _ _) E3).
      unfold for_lt. repeat no_abort_step.
    + unfold MatMultGPU.
      unfold bind at 1 2 3. unfold assert.
      rewrite (proj2 (Z.eqb_eq _ _) E1), (proj2 (Z.eqb_eq _ _) E2),
        (proj2 (Z.eqb_eq _ _) E3).
      unfold cudaFree. destruct optimized; repeat no_abort_step.
Qed.

(** ** Sub-views *)

(** C4.  [MatGetSubMatrix] asserts that the target descriptor owns no buffer,
    neither through [elements_malloc] nor through [elements_cudaMalloc]: on a
    target that owns one the call stops at the assertion, and only on a
    target that owns none does it alias the target into the parent's
    buffer. *)
Theorem getSubView_asserts_unowned_target
    (A : Mat) (R C blockSize : Z) (Asub : Mat) (m : mem) :
  (elements_cudaMalloc Asub ≠ None ∨ elements_malloc Asub ≠ None
     ↔ MatGetSubMatrix A R C blockSize Asub m = Abort m)
  ∧ (elements_cudaMalloc Asub = None ∧ elements_malloc Asub = None
     ↔ ∃ V, MatGetSubMatrix A R C blockSize Asub m = Done V m
            ∧ stride V = stride A
            ∧ elements V =
                (p ← elements A;
                 Some (ptr_add p (R * stride A * blockSize + C * blockSize)))).
Proof.
  unfold MatGetSubMatrix, bind, assert, ret.
  destruct (elements_cudaMalloc Asub) as [p1|] eqn:E1;
    destruct (elements_malloc Asub) as [p2|] eqn:E2; simpl;
    (split; split;
     [ try (intros _; reflexivity); try (intros [[]|[]]; done)
     | try discriminate; try (intros _; left; discriminate);
       try (intros _; right; discriminate)
     | try (intros [??]; discriminate); try (intros _; eexists; done)
     | try (intros (V & ? & _); discriminate); try done ]).
Qed.

Lemma load_ptr_add sd m p k i :
  load sd m (q ← p; Some (ptr_add q k)) i = load sd m p (k + i).
Proof.
  destruct p as [q|]; [|done]. unfold load; simpl.
  destruct (m !! p_blk q); [|done]; simpl.
  by rewrite Z.add_assoc.
Qed.

Lemma GetSubMatrix_get sd m A R C T r c :
  MatGetElement sd m (GetSubMatrix A R C T) r c
  = MatGetElement sd m A (R * T + r) (C * T + c).
Proof.
  unfold MatGetElement; simpl. rewrite load_ptr_add. f_equal. lia.
Qed.

(** C5.  The sub-view of [A] at block coordinates [(R, C)] with tile size [T]
    has the stride of [A]; its elements pointer is [A]'s moved by
    [R * stride A * T + C * T]; its element [(r, c)] is the element
    [(R * T + r, C * T + c)] of [A]; and making it allocates nothing: memory
    is not touched and the view owns no buffer.  This holds for
    [GetSubMatrix], which returns the view, and for [MatGetSubMatrix], which
    writes it into a target, whenever that call finishes. *)
Theorem getSubView_aliases_parent (A : Mat) (R C T : Z) :
  let off := R * stride A * T + C * T in
  (let V := GetSubMatrix A R C T in
   stride V = stride A
   ∧ elements V = (p ← elements A; Some (ptr_add p off))
   ∧ elements_malloc V = None ∧ elements_cudaMalloc V = None
   ∧ ∀ sd m r c,
       MatGetElement sd m V r c = MatGetElement sd m A (R * T + r) (C * T + c))
  ∧ (∀ Asub m V m',
       MatGetSubMatrix A R C T Asub m = Done V m' →
       m' = m
       ∧ stride V = stride A
       ∧ elements V = (p ← elements A; Some (ptr_add p off))
       ∧ elements_malloc V = None ∧ elements_cudaMalloc V = None
       ∧ ∀ sd m r c,
           MatGetElement sd m V r c
           = MatGetElement sd m A (R * T + r) (C * T + c)).
Proof.
  intros off. split.
  - simpl. repeat split.
    intros sd m r c. apply GetSubMatrix_get.
  - intros Asub m V m'. unfold MatGetSubMatrix, bind, assert, ret.
    destruct (elements_cudaMalloc Asub) as [p1|] eqn:E1;
      destruct (elements_malloc Asub) as [p2|] eqn:E2; simpl; try discriminate.
    intros [= <- <-]. simpl. repeat split; try done.
    intros sd m0 r c. unfold MatGetElement; simpl.
    rewrite load_ptr_add. f_equal. unfold off. lia.
Qed.

Lemma MatInitHost_Done h w m :
  ∃ q data,
    MatInitHost h w m
    = Done (set_elements (MatInit h w) (Some q))
           (<[p_blk q := Buffer HostMem data]> m)
    ∧ q = Ptr (fresh (dom m)) 0
    ∧ data = replicate (Z.to_nat (size (MatInit h w) / sizeof_float))
               (Some F32.zero).
Proof.
  eexists (Ptr (fresh (dom m)) 0), _. split; [|split; reflexivity].
  unfold MatInitHost, bind, alloc, memset0, write, set_range, ret. simpl.
  rewrite lookup_insert_eq. simpl.
  rewrite !length_replicate, Nat.leb_refl. simpl.
  rewrite insert_insert_eq. do 3 f_equal.
  rewrite drop_ge by (rewrite length_replicate; lia).
  by rewrite app_nil_r.
Qed.

Lemma MatInitGPU_Done h w m :
  ∃ q data,
    MatInitGPU h w m
    = Done (set_elements (MatInit h w) (Some q))
           (<[p_blk q := Buffer DeviceMem data]> m)
    ∧ q = Ptr (fresh (dom m)) 0
    ∧ data = replicate (Z.to_nat (size (MatInit h w) / sizeof_float))
               (Some F32.zero).
Proof.
  eexists (Ptr (fresh (dom m)) 0), _. split; [|split; reflexivity].
  unfold MatInitGPU, bind, alloc, memset0, write, set_range, ret. simpl.
  rewrite lookup_insert_eq. simpl.
  rewrite !length_replicate, Nat.leb_refl. simpl.
  rewrite insert_insert_eq. do 3 f_equal.
  rewrite drop_ge by (rewrite length_replicate; lia).
  by rewrite app_nil_r.
Qed.

(** C6.  Descriptors made by the public operations have [stride >= width]:
    [MatInit], [MatInitHost] and [MatInitGPU] make [stride = width], and the
    sub-view of a parent [A] with [stride A >= width A], for a tile size
    [T <= width A], has stride [stride A] and width [T], hence again
    [stride >= width]. *)
Theorem stride_ge_width_preserved (A : Mat) (R C T : Z) (h w : Z) (m : mem) :
  width A ≤ stride A →
  T ≤ width A →
  stride (MatInit h w) = width (MatInit h w)
  ∧ (∃ X m', MatInitHost h w m = Done X m' ∧ stride X = width X)
  ∧ (∃ X m', MatInitGPU h w m = Done X m' ∧ stride X = width X)
  ∧ stride (GetSubMatrix A R C T) = stride A
  ∧ width (GetSubMatrix A R C T) = T
  ∧ width (GetSubMatrix A R C T) ≤ stride (GetSubMatrix A R C T).
Proof.
  intros HA HT. split; [done|]. split; [|split].
  - destruct (MatInitHost_Done h w m) as (q & data & -> & _). by eexists _, _.
  - destruct (MatInitGPU_Done h w m) as (q & data & -> & _). by eexists _, _.
  - simpl. lia.
Qed.

Lemma stride_ge_width_preserved_witness :
  let A := set_elements (MatInit 8 12) (Some (Ptr 0 0)) in
  width A ≤ stride A ∧ 4 ≤ width A
  ∧ width (GetSubMatrix A 1 2 4) ≤ stride (GetSubMatrix A 1 2 4).
Proof.
  split; [simpl; lia|]. split; [simpl; lia|].
  apply (stride_ge_width_preserved
           (set_elements (MatInit 8 12) (Some (Ptr 0 0))) 1 2 4 8 12 ∅);
    simpl; lia.
Defined.

(** ** Basic facts: memory *)

Lemma cells_elem X r c :
  (r, c) ∈ cells X ↔ (0 ≤ r < height X ∧ 0 ≤ c < width X).
Proof.
  unfold cells. rewrite list_elem_of_bind. split.
  - intros (r' & Hc & Hr). apply list_elem_of_bind in Hc as (c' & Hc & Hc').
    apply list_elem_of_singleton in Hc as [= -> ->].
    apply elem_of_seqZ in Hr, Hc'. lia.
  - intros [Hr Hc]. exists r. split; [|apply elem_of_seqZ; lia].
    apply list_elem_of_bind. exists c. split; [|apply elem_of_seqZ; lia].
    by apply list_elem_of_singleton.
Qed.

Lemma in_bounds_spec sd m p i :
  in_bounds sd m p i = true ↔
  ∃ q b, p = Some q ∧ m !! p_blk q = Some b ∧ accessible sd (b_res b) = true
         ∧ 0 ≤ p_off q + i
         ∧ (Z.to_nat (p_off q + i) < length (b_data b))%nat.
Proof.
  unfold in_bounds. split.
  - destruct p as [q|]; [|done]. destruct (m !! p_blk q) as [b|] eqn:E; [|done].
    rewrite !andb_true_iff, Z.leb_le, Nat.ltb_lt. intros [[? ?] ?].
    by exists q, b.
  - intros (q & b & -> & -> & ? & ? & ?).
    rewrite !andb_true_iff, Z.leb_le, Nat.ltb_lt. done.
Qed.

Lemma store_spec sd m p i v :
  store sd m p i v =
  if in_bounds sd m p i
  then q ← p; b ← m !! p_blk q;
       Some (<[p_blk q := Buffer (b_res b)
                 (<[Z.to_nat (p_off q + i) := Some v]> (b_data b))]> m)
  else None.
Proof.
  unfold store, in_bounds. destruct p as [q|]; [|done]. simpl.
  destruct (m !! p_blk q) as [b|]; [|done]. simpl.
  by destruct (_ && _ && _).
Qed.

Lemma load_other_block sd (m m' : mem) q i :
  m' !! p_blk q = m !! p_blk q → load sd m' (Some q) i = load sd m (Some q) i.
Proof. unfold load; simpl. by intros ->. Qed.

Lemma writable_spec sd m X :
  writable sd m X = true →
  0 ≤ height X ∧ 0 ≤ width X ∧ width X ≤ stride X
  ∧ (∃ q b, elements X = Some q ∧ m !! p_blk q = Some b
            ∧ accessible sd (b_res b) = true
            ∧ 0 ≤ p_off q ≤ Z.of_nat (length (b_data b)))
  ∧ ∀ r c, (r, c) ∈ cells X →
      in_bounds sd m (elements X) (r * stride X + c) = true.
Proof.
  unfold writable. rewrite !andb_true_iff, !Z.leb_le.
  intros [[[[? ?] ?] Hp] Hall]. repeat split; try done.
  - unfold points_into in Hp. destruct (elements X) as [q|]; [|done].
    destruct (m !! p_blk q) as [b|] eqn:Hb; [|done].
    apply andb_true_iff in Hp as [[? ?%Z.leb_le]%andb_true_iff ?%Z.leb_le].
    by exists q, b.
  - intros r c Hrc. rewrite forallb_forall in Hall.
    apply (Hall (r, c)). by apply list_elem_of_In.
Qed.

Lemma readable_spec sd m X :
  readable sd m X = true →
  writable sd m X = true
  ∧ ∀ r c, (r, c) ∈ cells X →
      MatGetElement sd m X r c = Some (elem sd m X r c).
Proof.
  unfold readable. rewrite andb_true_iff. intros [Hw Hall]. split; [done|].
  intros r c Hrc. rewrite forallb_forall in Hall.
  specialize (Hall (r, c)). rewrite <- list_elem_of_In in Hall.
  apply Hall in Hrc. apply bool_decide_eq_true in Hrc as [v Hv]. simpl in Hv.
  unfold elem. by rewrite Hv.
Qed.

(** Distinct positions of a matrix with [width <= stride] occupy distinct
    cells. *)
Lemma cell_index_inj X q rc rc' :
  width X ≤ stride X → rc ∈ cells X → rc' ∈ cells X →
  0 ≤ p_off q + (rc.1 * stride X + rc.2) →
  0 ≤ p_off q + (rc'.1 * stride X + rc'.2) →
  cell_index X q rc = cell_index X q rc' → rc = rc'.
Proof.
  destruct rc as [r c], rc' as [r' c']. simpl.
  rewrite !cells_elem. unfold cell_index; simpl. intros Hs Hrc Hrc' H1 H2 Heq.
  apply Z2Nat.inj in Heq; [|done..].
  assert (r = r') as -> by nia. f_equal. lia.
Qed.

(** ** Loops *)

Lemma foldO_ext {A S} (l : list A) (f g : A → S → option S) s :
  (∀ x s, x ∈ l → f x s = g x s) → foldO l f s = foldO l g s.
Proof.
  revert s. induction l as [|x l IH]; intros s H; simpl; [done|].
  rewrite H by apply list_elem_of_here.
  destruct (g x s); [|done]. apply IH. intros. apply H. by apply list_elem_of_further.
Qed.

Lemma foldO_foldl {A S} (l : list A) (f : A → S → option S) (g : S → A → S) s :
  (∀ x s, x ∈ l → f x s = Some (g s x)) → foldO l f s = Some (foldl g s l).
Proof.
  revert s. induction l as [|x l IH]; intros s H; simpl; [done|].
  rewrite H by apply list_elem_of_here.
  apply IH. intros. apply H. by apply list_elem_of_further.
Qed.



(** ** Memory in which elements of one matrix have been set *)

Lemma buffer_eta b : Buffer (b_res b) (b_data b) = b.
Proof. by destruct b. Qed.

Lemma updated_refl sd m X f : writable sd m X = true → updated m m X f [].
Proof.
  intros Hw. apply writable_spec in Hw as (_ & _ & _ & (q & b & ? & ? & _) & _).
  exists q, b, (b_data b). repeat split; try done.
  - by rewrite buffer_eta, insert_id.
  - intros rc Hrc. by apply not_elem_of_nil in Hrc.
  - intros rc Hrc. by apply not_elem_of_nil in Hrc.
Qed.

Lemma updated_equiv m0 m X f g cs cs' :
  (∀ rc, rc ∈ cs ↔ rc ∈ cs') →
  (∀ rc, rc ∈ cs → f rc.1 rc.2 = g rc.1 rc.2) →
  updated m0 m X f cs → updated m0 m X g cs'.
Proof.
  intros Heq Hfg (q & b & data & ? & ? & ? & ? & Hin & Hset & Hrest).
  exists q, b, data. repeat split; try done.
  - intros rc Hrc. apply Hin. by apply Heq.
  - intros rc Hrc. apply Heq in Hrc. rewrite <- Hfg by done. by apply Hset.
  - intros j Hj. apply Hrest. intros rc Hrc. apply Hj. by apply Heq.
Qed.

Lemma updated_lookup_other m0 m X f cs k :
  updated m0 m X f cs → blk_of X ≠ Some k → m !! k = m0 !! k.
Proof.
  intros (q & b & data & HX & ? & -> & _) Hne.
  apply lookup_insert_ne. intros <-. apply Hne. unfold blk_of. by rewrite HX.
Qed.

Lemma updated_load_other sd m0 m X f cs p i :
  updated m0 m X f cs → blk_of X ≠ p_blk <$> p →
  load sd m p i = load sd m0 p i.
Proof.
  intros Hu Hne. destruct p as [q|]; [|done].
  apply load_other_block. eapply updated_lookup_other; done.
Qed.

Lemma updated_in_bounds sd m0 m X f cs p i :
  updated m0 m X f cs → in_bounds sd m p i = in_bounds sd m0 p i.
Proof.
  intros (q & b & data & HX & Hb & -> & Hlen & _).
  unfold in_bounds. destruct p as [q'|]; [|done].
  destruct (decide (p_blk q = p_blk q')) as [E|E].
  - rewrite <- E, lookup_insert_eq, Hb. simpl. by rewrite Hlen.
  - by rewrite lookup_insert_ne.
Qed.

Lemma updated_get sd m0 m X f cs r c :
  writable sd m0 X = true → updated m0 m X f cs → (r, c) ∈ cs →
  MatGetElement sd m X r c = Some (f r c).
Proof.
  intros Hw Hu Hrc.
  pose proof Hu as (q & b & data & HX & Hb & -> & Hlen & Hin & Hset & _).
  apply writable_spec in Hw as (_ & _ & _ & _ & Hcells).
  specialize (Hcells r c (Hin _ Hrc)).
  apply in_bounds_spec in Hcells as (q' & b' & Hq' & Hb' & Hacc & H0 & Hlt).
  rewrite HX in Hq'. injection Hq' as <-. rewrite Hb in Hb'. injection Hb' as <-.
  unfold MatGetElement, load. rewrite HX. simpl.
  rewrite lookup_insert_eq. simpl. rewrite Hacc. simpl.
  rewrite (proj2 (Z.leb_le _ _) H0).
  specialize (Hset _ Hrc). unfold cell_index in Hset. simpl in Hset.
  by rewrite Hset.
Qed.

Lemma updated_get_unset sd m0 m X f cs r c :
  writable sd m0 X = true → updated m0 m X f cs →
  (r, c) ∈ cells X → (r, c) ∉ cs →
  MatGetElement sd m X r c = MatGetElement sd m0 X r c.
Proof.
  intros Hw Hu Hrc Hnot.
  pose proof Hu as (q & b & data & HX & Hb & -> & Hlen & Hin & _ & Hrest).
  apply writable_spec in Hw as (_ & _ & Hs & _ & Hcells).
  pose proof (Hcells r c Hrc) as Hb1.
  apply in_bounds_spec in Hb1 as (q' & b' & Hq' & Hb' & Hacc & H0 & Hlt).
  rewrite HX in Hq'. injection Hq' as <-. rewrite Hb in Hb'. injection Hb' as <-.
  unfold MatGetElement, load. rewrite HX. simpl.
  rewrite lookup_insert_eq, Hb. simpl. rewrite Hacc. simpl.
  rewrite (proj2 (Z.leb_le _ _) H0).
  rewrite Hrest; [done|]. intros rc Hrc' Heq. apply Hnot.
  assert ((r, c) = rc) as ->; [|done].
  apply (cell_index_inj X q); try done; [by apply Hin|].
  specialize (Hcells rc.1 rc.2). rewrite <- surjective_pairing in Hcells.
  apply Hin, Hcells, in_bounds_spec in Hrc' as (q' & _ & Hq' & _ & _ & ? & _).
  rewrite HX in Hq'. by injection Hq' as <-.
Qed.

(** Setting one more element. *)
Lemma updated_set sd m0 m X f cs r c :
  writable sd m0 X = true → updated m0 m X f cs → (r, c) ∈ cells X →
  ∃ m', MatSetElement sd X r c (f r c) m = Done tt m'
        ∧ updated m0 m' X f (cs ++ [(r, c)]).
Proof.
  intros Hw Hu Hrc.
  pose proof Hu as (q & b & data & HX & Hb & Hm & Hlen & Hin & Hset & Hrest).
  pose proof Hw as (_ & _ & Hs & _ & Hcells)%writable_spec.
  pose proof (Hcells r c Hrc) as Hb1.
  pose proof Hb1 as (q' & b' & Hq' & Hb' & Hacc & H0 & Hlt)%in_bounds_spec.
  rewrite HX in Hq'. injection Hq' as <-. rewrite Hb in Hb'. injection Hb' as <-.
  unfold MatSetElement, write. rewrite store_spec.
  rewrite (updated_in_bounds sd m0 m X f cs) by done. rewrite Hb1.
  rewrite HX. simpl. subst m. rewrite lookup_insert_eq. simpl.
  eexists. split; [reflexivity|].
  exists q, b, (<[cell_index X q (r, c) := Some (f r c)]> data).
  rewrite insert_insert_eq. repeat split; try done.
  - by rewrite length_insert.
  - intros rc [Hrc'| ->%list_elem_of_singleton]%elem_of_app; [by apply Hin|done].
  - intros rc Hrc'.
    destruct (decide (cell_index X q rc = cell_index X q (r, c))) as [E|E].
    + assert (rc = (r, c)) as ->.
      { apply elem_of_app in Hrc' as [Hrc'| ->%list_elem_of_singleton]; [|done].
        apply (cell_index_inj X q); try done; [by apply Hin|].
        specialize (Hcells rc.1 rc.2). rewrite <- surjective_pairing in Hcells.
        apply Hin, Hcells, in_bounds_spec in Hrc'
          as (q' & _ & Hq' & _ & _ & ? & _).
        rewrite HX in Hq'. by injection Hq' as <-. }
      apply list_lookup_insert_eq. unfold cell_index. simpl. lia.
    + rewrite list_lookup_insert_ne by done.
      apply elem_of_app in Hrc' as [Hrc'| ->%list_elem_of_singleton]; [|done].
      by apply Hset.
  - intros j Hj. rewrite list_lookup_insert_ne.
    + apply Hrest. intros rc Hrc'. apply Hj, elem_of_app. by left.
    + intros <-. apply (Hj (r, c)); [|done].
      apply elem_of_app. right. by apply list_elem_of_singleton.
Qed.

(** A loop whose iterations each set some elements. *)
Lemma forM__updated {T} m0 X f (tasks : list T) (cs : T → list (Z * Z)) body :
  (∀ t done m1, t ∈ tasks → updated m0 m1 X f done →
     ∃ m2, body t m1 = Done tt m2 ∧ updated m0 m2 X f (done ++ cs t)) →
  ∀ done m1, updated m0 m1 X f done →
    ∃ m2, forM_ tasks body m1 = Done tt m2
          ∧ updated m0 m2 X f (done ++ (tasks ≫= cs)).
Proof.
  induction tasks as [|t tasks IH]; intros Hbody done m1 Hu; simpl.
  - exists m1. split; [done|]. by rewrite app_nil_r.
  - destruct (Hbody t done m1) as (m2 & Hb & Hu2);
      [apply list_elem_of_here|done|].
    destruct (IH (λ t' d m' Ht', Hbody t' d m' (list_elem_of_further _ _ _ Ht'))
                (done ++ cs t) m2 Hu2) as (m3 & Hf & Hu3).
    exists m3. split.
    + unfold bind. by rewrite Hb.
    + by rewrite <- app_assoc in Hu3.
Qed.

(** ** One element of the product *)

Lemma MatMultElement_frame sd (m m' : mem) A B r c :
  (∀ i, load sd m' (elements A) i = load sd m (elements A) i) →
  (∀ i, load sd m' (elements B) i = load sd m (elements B) i) →
  MatMultElement sd m' A B r c = MatMultElement sd m A B r c.
Proof.
  intros HA HB. unfold MatMultElement. apply foldO_ext.
  intros k s _. by rewrite HA, HB.
Qed.

Lemma MatMultElement_product sd m A B r c :
  readable sd m A = true → readable sd m B = true →
  width A = height B → 0 ≤ r < height A → 0 ≤ c < width B →
  MatMultElement sd m A B r c = Some (product sd m A B r c).
Proof.
  intros [_ HA]%readable_spec [_ HB]%readable_spec Hsh Hr Hc.
  unfold MatMultElement, product, dot_product, dot_from.
  apply foldO_foldl. intros k s Hk%elem_of_seqZ.
  fold (MatGetElement sd m A r k). fold (MatGetElement sd m B k c).
  rewrite HA by (apply cells_elem; lia).
  rewrite HB by (apply cells_elem; lia). done.
Qed.

(** The body shared by the host loop and the direct kernel: compute one
    element of the product and store it. *)
Lemma element_step sd m0 m A B C r c cs :
  readable sd m0 A = true → readable sd m0 B = true →
  writable sd m0 C = true →
  width A = height B →
  blk_of C ≠ blk_of A → blk_of C ≠ blk_of B →
  0 ≤ r < height A → 0 ≤ c < width B → (r, c) ∈ cells C →
  updated m0 m C (product sd m0 A B) cs →
  ∃ m', (do v <- read (λ m, MatMultElement sd m A B r c);
         MatSetElement sd C r c v) m = Done tt m'
        ∧ updated m0 m' C (product sd m0 A B) (cs ++ [(r, c)]).
Proof.
  intros HA HB HC Hsh HCA HCB Hr Hc Hrc Hu.
  unfold bind, read.
  rewrite (MatMultElement_frame sd m0 m).
  - rewrite MatMultElement_product by done.
    by apply (updated_set sd).
  - intros i. by apply (updated_load_other sd m0 m C (product sd m0 A B) cs).
  - intros i. by apply (updated_load_other sd m0 m C (product sd m0 A B) cs).
Qed.

(** ** The host reference *)

Lemma MatMultHost_updated A B C m :
  readable OnHost m A = true → readable OnHost m B = true →
  writable OnHost m C = true →
  width A = height B → height A = height C → width B = width C →
  blk_of C ≠ blk_of A → blk_of C ≠ blk_of B →
  ∃ m', MatMultHost A B C m = Done tt m'
        ∧ updated m m' C (product OnHost m A B) (cells C).
Proof.
  intros HA HB HC E1 E2 E3 HCA HCB.
  unfold MatMultHost. unfold bind at 1 2 3. unfold assert.
  rewrite (proj2 (Z.eqb_eq _ _) E1), (proj2 (Z.eqb_eq _ _) E2),
    (proj2 (Z.eqb_eq _ _) E3).
  unfold for_lt.
  assert (∀ r done m1, r ∈ seqZ 0 (height A) →
            updated m m1 C (product OnHost m A B) done →
            ∃ m2, forM_ (seqZ 0 (width B))
                    (λ c, do v <- read (λ m, MatMultElement OnHost m A B r c);
                          MatSetElement OnHost C r c v) m1 = Done tt m2
                  ∧ updated m m2 C (product OnHost m A B)
                      (done ++ (seqZ 0 (width B) ≫= λ c, [(r, c)])))
    as Hrow.
  { intros r done m1 Hr%elem_of_seqZ Hu.
    apply (forM__updated m C (product OnHost m A B) (seqZ 0 (width B))
             (λ c, [(r, c)])); [|done].
    intros c done' m2 Hc%elem_of_seqZ Hu'.
    apply (element_step OnHost); try done; try lia.
    apply cells_elem. lia. }
  destruct (forM__updated m C (product OnHost m A B) (seqZ 0 (height A))
              (λ r, seqZ 0 (width B) ≫= λ c, [(r, c)]) _ Hrow [] m)
    as (m' & Hrun & Hu).
  { by apply (updated_refl OnHost). }
  exists m'. split; [done|]. simpl in Hu. unfold cells.
  by rewrite <- E2, <- E3.
Qed.

Lemma int32_uint32 z : 0 ≤ z < 2 ^ 31 → int32 (uint32 z) = z.
Proof.
  intros Hz. unfold int32, uint32.
  rewrite (Z.mod_small z) by lia. rewrite Z.mod_small by lia. lia.
Qed.


(** C10.  [MatMultHost] writes to elements of [C] only.  With compatible
    shapes and [C] in another buffer than [A] and [B], the call finishes;
    every element of [A] and of [B] reads as before; every cell of every
    buffer that does not hold an element of [C] is unchanged; and no buffer
    is added, removed, moved to another residency or resized.  The three
    descriptors are received by value: the call has no access to the
    caller's copies, whose fields are therefore unchanged. *)
Theorem MatMultHost_writes_only_C (A B C : Mat) (m : mem) :
  readable OnHost m A = true → readable OnHost m B = true →
  writable OnHost m C = true →
  width A = height B → height A = height C → width B = width C →
  blk_of C ≠ blk_of A → blk_of C ≠ blk_of B →
  ∃ m', MatMultHost A B C m = Done tt m'
    ∧ (∀ r c, MatGetElement OnHost m' A r c = MatGetElement OnHost m A r c)
    ∧ (∀ r c, MatGetElement OnHost m' B r c = MatGetElement OnHost m B r c)
    ∧ (∀ k j,
         (∀ q rc, elements C = Some q → k = p_blk q → rc ∈ cells C →
                  j ≠ cell_index C q rc) →
         cell_at m' k j = cell_at m k j)
    ∧ (∀ k, b_res <$> m' !! k = b_res <$> m !! k)
    ∧ (∀ k, length ∘ b_data <$> m' !! k = length ∘ b_data <$> m !! k).
Proof.
  intros HA HB HC E1 E2 E3 HCA HCB.
  destruct (MatMultHost_updated A B C m) as (m' & Hrun & Hu); try done.
  exists m'. split; [done|].
  split; [|split].
  - intros r c. by eapply updated_load_other.
  - intros r c. by eapply updated_load_other.
  - destruct Hu as (q & b & data & HX & Hb & -> & Hlen & Hin & _ & Hrest).
    split; [|split].
    + intros k j Hj. unfold cell_at.
      destruct (decide (k = p_blk q)) as [->|Hk].
      * rewrite lookup_insert_eq, Hb. simpl. apply Hrest.
        intros rc Hrc. by apply (Hj q).
      * by rewrite lookup_insert_ne.
    + intros k. destruct (decide (k = p_blk q)) as [->|Hk].
      * by rewrite lookup_insert_eq, Hb.
      * by rewrite lookup_insert_ne.
    + intros k. destruct (decide (k = p_blk q)) as [->|Hk].
      * rewrite lookup_insert_eq, Hb. simpl. by rewrite Hlen.
      * by rewrite lookup_insert_ne.
Qed.

(** ** The tolerance comparison *)

Lemma allO_forallb {A} (l : list A) (body : A → option bool) (P : A → bool) :
  (∀ x, x ∈ l → body x = Some (P x)) → allO l body = Some (forallb P l).
Proof.
  induction l as [|x l IH]; intros H; simpl; [done|].
  rewrite H by apply list_elem_of_here.
  destruct (P x); simpl; [|done].
  apply IH. intros. apply H. by apply list_elem_of_further.
Qed.

Lemma forallb_seqZ (P : Z → bool) n :
  forallb P (seqZ 0 n) = true ↔ ∀ k, 0 ≤ k < n → P k = true.
Proof.
  rewrite forallb_forall. split.
  - intros H k Hk. apply H, list_elem_of_In, elem_of_seqZ. lia.
  - intros H k Hk%list_elem_of_In%elem_of_seqZ. apply H. lia.
Qed.

Lemma MatEqual_run (A B : Mat) (tol : float) (m : mem) :
  height A = height B → width A = width B →
  readable OnHost m A = true → readable OnHost m B = true →
  MatEqual A B tol m
  = Some (forallb (λ r, forallb (λ c,
            within_tol tol (elem OnHost m A r c) (elem OnHost m B r c))
            (seqZ 0 (width A))) (seqZ 0 (height A))).
Proof.
  intros E1 E2 [_ HA]%readable_spec [_ HB]%readable_spec. unfold MatEqual.
  rewrite (proj2 (Z.eqb_eq _ _) E1), (proj2 (Z.eqb_eq _ _) E2). simpl.
  apply allO_forallb. intros r Hr%elem_of_seqZ.
  apply allO_forallb. intros c Hc%elem_of_seqZ.
  rewrite HA by (apply cells_elem; lia).
  rewrite HB by (apply cells_elem; lia). simpl.
  unfold within_tol. by destruct (F32.gt _ _).
Qed.

(** C8.  [MatEqual] returns false whenever the heights or the widths differ;
    for equal shapes (and elements that can be read) it returns true exactly
    when at every position [(r, c)] the test [fabs(A[r,c] - B[r,c]) > tol]
    is false, that is, when the absolute difference does not exceed
    [tol]. *)
Theorem MatEqual_compares_within_tolerance (A B : Mat) (tol : float) (m : mem) :
  (height A ≠ height B ∨ width A ≠ width B → MatEqual A B tol m = Some false)
  ∧ (height A = height B → width A = width B →
     readable OnHost m A = true → readable OnHost m B = true →
     ∃ b, MatEqual A B tol m = Some b
          ∧ (b = true ↔
             ∀ r c, 0 ≤ r < height A → 0 ≤ c < width A →
               within_tol tol (elem OnHost m A r c) (elem OnHost m B r c)
               = true)).
Proof.
  split.
  - intros Hne. unfold MatEqual.
    destruct (height A =? height B) eqn:E1; [|done].
    destruct (width A =? width B) eqn:E2; [|done].
    apply Z.eqb_eq in E1, E2. destruct Hne; done.
  - intros E1 E2 HA HB. eexists. split; [by apply MatEqual_run|].
    rewrite forallb_seqZ. split.
    + intros H r c Hr Hc. by apply (proj1 (forallb_seqZ _ _) (H r Hr)).
    + intros H r Hr. apply forallb_seqZ. intros c Hc. by apply H.
Qed.

(** ** The launch configuration *)

Lemma elem_of_bind2 {A B C} (g : A → B → C) (l1 : list A) (l2 : list B) z :
  z ∈ (a ← l1; b ← l2; [g a b]) ↔ ∃ a b, z = g a b ∧ a ∈ l1 ∧ b ∈ l2.
Proof.
  rewrite list_elem_of_bind. split.
  - intros (a & (b & ->%list_elem_of_singleton & ?)%list_elem_of_bind & ?).
    by exists a, b.
  - intros (a & b & -> & ? & ?). exists a. split; [|done].
    apply list_elem_of_bind. exists b. split; [|done].
    by apply list_elem_of_singleton.
Qed.

Lemma NoDup_bind2 {A B C} (g : A → B → C) (l1 : list A) (l2 : list B) :
  (∀ a b a' b', g a b = g a' b' → a = a' ∧ b = b') →
  NoDup l1 → NoDup l2 → NoDup (a ← l1; b ← l2; [g a b]).
Proof.
  intros Hg H1 H2. apply NoDup_bind; [| |done].
  - intros a a' z _ _ (b & ->%list_elem_of_singleton & _)%list_elem_of_bind
      (b' & E%list_elem_of_singleton & _)%list_elem_of_bind.
    by apply Hg in E as [-> _].
  - intros a _. apply NoDup_bind; [| |done].
    + intros b b' z _ _ ->%list_elem_of_singleton E%list_elem_of_singleton.
      by apply Hg in E as [_ ->].
    + intros. apply NoDup_singleton.
Qed.

Lemma length_bind2 {A B C} (g : A → B → C) (l1 : list A) (l2 : list B) :
  length (a ← l1; b ← l2; [g a b]) = (length l1 * length l2)%nat.
Proof.
  induction l1 as [|a l1 IH]; [done|].
  rewrite bind_cons, length_app, IH. simpl. f_equal.
  clear. induction l2 as [|b l2 IH]; [done|].
  rewrite bind_cons, length_app, IH. done.
Qed.

Lemma grid_blocks_elem g bi :
  bi ∈ grid_blocks g ↔ 0 ≤ dim_x bi < dim_x g ∧ 0 ≤ dim_y bi < dim_y g.
Proof.
  unfold grid_blocks. rewrite (elem_of_bind2 (λ by_ bx, Dim3 bx by_)). split.
  - intros (by_ & bx & -> & ?%elem_of_seqZ & ?%elem_of_seqZ). simpl. lia.
  - intros [? ?]. exists (dim_y bi), (dim_x bi). rewrite !elem_of_seqZ.
    destruct bi; simpl in *. repeat split; lia.
Qed.

Lemma block_threads_elem b ti :
  ti ∈ block_threads b ↔ 0 ≤ dim_x ti < dim_x b ∧ 0 ≤ dim_y ti < dim_y b.
Proof. apply grid_blocks_elem. Qed.

Lemma grid_blocks_NoDup g : NoDup (grid_blocks g).
Proof.
  apply (NoDup_bind2 (λ by_ bx, Dim3 bx by_)); [|apply NoDup_seqZ..].
  by intros ???? [= -> ->].
Qed.

Lemma grid_blocks_length g :
  length (grid_blocks g) = (Z.to_nat (dim_y g) * Z.to_nat (dim_x g))%nat.
Proof.
  unfold grid_blocks.
  by rewrite (length_bind2 (λ by_ bx, Dim3 bx by_)), !length_seqZ.
Qed.

Lemma workers_elem g b w :
  w ∈ workers g b ↔ w.1 ∈ grid_blocks g ∧ w.2 ∈ block_threads b.
Proof.
  unfold workers. rewrite (elem_of_bind2 pair). split.
  - by intros (bi & ti & -> & ? & ?).
  - intros [? ?]. exists w.1, w.2. by destruct w.
Qed.

Lemma workers_NoDup g b : NoDup (workers g b).
Proof.
  apply (NoDup_bind2 pair); [|apply grid_blocks_NoDup..].
  by intros ???? [= -> ->].
Qed.

(** A launch runs the kernel body once for every worker. *)
Lemma launch_workers g b (kernel : dim3 → dim3 → M unit) m :
  launch_accepted g b = true →
  launch g b kernel m = forM_ (workers g b) (λ w, kernel w.1 w.2) m.
Proof.
  intros Hok. unfold launch, workers. rewrite Hok. revert m.
  induction (grid_blocks g) as [|bi l IH]; intros m; [done|].
  rewrite bind_cons, forM__app. simpl.
  assert (∀ m, forM_ (block_threads b) (λ ti, kernel bi ti) m
               = forM_ (ti ← block_threads b; [(bi, ti)])
                   (λ w, kernel w.1 w.2) m) as Hin.
  { clear. induction (block_threads b) as [|ti l IH]; intros m; [done|].
    simpl. unfold bind. destruct (kernel bi ti m); try done. }
  unfold bind. rewrite Hin.
  destruct (forM_ _ _ m); try done.
Qed.

Lemma dimBlock_eq : dimBlock = Dim3 BLOCK_SIZE BLOCK_SIZE.
Proof. reflexivity. Qed.

Lemma dimGrid_eq A B :
  0 ≤ height A < 2 ^ 31 → 0 ≤ width B < 2 ^ 31 →
  dimGrid A B = Dim3 (width B / BLOCK_SIZE) (height A / BLOCK_SIZE).
Proof.
  intros HA HB. unfold dimGrid, uint32. simpl.
  by rewrite !Z.mod_small by lia.
Qed.


Lemma worker_cells_elem A B C rc :
  0 ≤ height A < 2 ^ 31 → 0 ≤ width B < 2 ^ 31 →
  multiple_of BLOCK_SIZE (height A) = true →
  multiple_of BLOCK_SIZE (width B) = true →
  height A = height C → width B = width C →
  rc ∈ worker_cell dimBlock <$> workers (dimGrid A B) dimBlock ↔ rc ∈ cells C.
Proof.
  intros HA HB HmA%Z.eqb_eq HmB%Z.eqb_eq E2 E3.
  rewrite list_elem_of_fmap.
  destruct rc as [r c]. rewrite cells_elem. split.
  - intros ([[bx by_] [tx ty]] & E & Hw). revert E.
    apply workers_elem in Hw as [Hg Hb].
    apply grid_blocks_elem in Hg. apply block_threads_elem in Hb.
    rewrite dimGrid_eq in Hg by done. rewrite dimBlock_eq in *.
    unfold worker_cell, BLOCK_SIZE in *. simpl in *.
    rewrite !int32_uint32 by lia. intros [= -> ->]. lia.
  - intros [Hr Hc].
    exists (Dim3 (c / 4) (r / 4), Dim3 (c mod 4) (r mod 4)). split.
    + rewrite dimBlock_eq. unfold worker_cell, BLOCK_SIZE in *. simpl.
      rewrite !int32_uint32 by lia. f_equal; lia.
    + apply workers_elem. rewrite grid_blocks_elem, block_threads_elem.
      rewrite dimGrid_eq by done. rewrite dimBlock_eq.
      unfold BLOCK_SIZE in *. simpl. lia.
Qed.


(** ** The direct kernel *)




(** ** The tiled kernel *)

Lemma int32_small z : - 2 ^ 31 ≤ z < 2 ^ 31 → int32 z = z.
Proof. intros Hz. unfold int32. rewrite Z.mod_small by lia. lia. Qed.

Lemma store_ptr_add sd m p k i v :
  store sd m (q ← p; Some (ptr_add q k)) i v = store sd m p (k + i) v.
Proof.
  destruct p as [q|]; [|done]. unfold store; simpl.
  destruct (m !! p_blk q); [|done]; simpl.
  by rewrite Z.add_assoc.
Qed.

Lemma updated_lookup_None m0 m X f cs k :
  updated m0 m X f cs → m !! k = None ↔ m0 !! k = None.
Proof.
  intros (q & b & data & HX & Hb & -> & _).
  destruct (decide (k = p_blk q)) as [->|Hk].
  - rewrite lookup_insert_eq, Hb. done.
  - by rewrite lookup_insert_ne.
Qed.

Lemma updated_insert_other m0 m X f cs k v :
  m0 !! k = None →
  updated m0 m X f cs → updated (<[k := v]> m0) (<[k := v]> m) X f cs.
Proof.
  intros Hk (q & b & data & HX & Hb & -> & Hrest).
  assert (k ≠ p_blk q) as Hne by (intros ->; congruence).
  exists q, b, data. repeat split; try tauto.
  - by rewrite lookup_insert_ne.
  - by apply insert_insert_ne.
Qed.

Lemma updated_delete_other m0 m X f cs k v :
  m0 !! k = None → blk_of X ≠ Some k →
  updated (<[k := v]> m0) m X f cs → updated m0 (delete k m) X f cs.
Proof.
  intros Hk HX' (q & b & data & HX & Hb & -> & Hrest).
  assert (k ≠ p_blk q) as Hne.
  { intros ->. apply HX'. unfold blk_of. by rewrite HX. }
  rewrite lookup_insert_ne in Hb by done.
  exists q, b, data. repeat split; try tauto.
  rewrite delete_insert_ne by done. by rewrite delete_insert_id.
Qed.

Lemma foldM_inv {A St} (I : nat → St → mem → Prop) (l : list A)
    (body : A → St → M St) s m :
  I 0%nat s m →
  (∀ i x s m, l !! i = Some x → I i s m →
     ∃ s' m', body x s m = Done s' m' ∧ I (S i) s' m') →
  ∃ s' m', foldM l body s m = Done s' m' ∧ I (length l) s' m'.
Proof.
  revert I s m. induction l as [|x l IH]; intros I s m H0 Hstep; simpl.
  - by exists s, m.
  - destruct (Hstep 0%nat x s m) as (s1 & m1 & Hb & H1); [done..|].
    destruct (IH (λ i, I (S i)) s1 m1 H1) as (s2 & m2 & Hf & H2).
    { intros i y s' m' Hy. by apply (Hstep (S i)). }
    exists s2, m2. split; [|done]. unfold bind. by rewrite Hb.
Qed.

Lemma mapM_fmap {A B} (f : A → option B) (g : A → B) (l : list A) :
  (∀ x, x ∈ l → f x = Some (g x)) → mapM f l = Some (g <$> l).
Proof.
  intros H. apply mapM_Some_2. induction l as [|x l IH]; simpl.
  - constructor.
  - constructor; [apply H, list_elem_of_here|].
    apply IH. intros. apply H. by apply list_elem_of_further.
Qed.

Lemma dot_from_app acc a b k0 n1 n2 :
  0 ≤ n1 → 0 ≤ n2 →
  dot_from acc a b k0 (n1 + n2)
  = dot_from (dot_from acc a b k0 n1) a b (k0 + n1) n2.
Proof.
  intros. unfold dot_from. by rewrite seqZ_app, foldl_app.
Qed.

Lemma dot_from_shift acc a b k0 n :
  dot_from acc a b k0 n
  = foldl (λ s k, F32.add s (F32.mul (a (k0 + k)) (b (k0 + k)))) acc (seqZ 0 n).
Proof.
  unfold dot_from. rewrite <- (Z.add_0_r k0) at 1.
  by rewrite <- fmap_add_seqZ, foldl_fmap.
Qed.

Lemma writable_intro sd m X q b :
  elements X = Some q → m !! p_blk q = Some b →
  accessible sd (b_res b) = true →
  0 ≤ height X → 0 ≤ width X → width X ≤ stride X →
  0 ≤ p_off q ≤ Z.of_nat (length (b_data b)) →
  (∀ r c, (r, c) ∈ cells X →
     p_off q + (r * stride X + c) < Z.of_nat (length (b_data b))) →
  writable sd m X = true.
Proof.
  intros HX Hb Hacc Hh Hw Hs Ho Hcells. unfold writable.
  rewrite !andb_true_iff, !Z.leb_le. repeat split; try done.
  - unfold points_into. rewrite HX, Hb, Hacc. simpl.
    rewrite andb_true_iff, !Z.leb_le. lia.
  - apply forallb_forall. intros [r c] Hrc%list_elem_of_In. simpl.
    apply in_bounds_spec. exists q, b. repeat split; try done.
    + apply cells_elem in Hrc.
      assert (0 ≤ r * stride X) by (apply Z.mul_nonneg_nonneg; lia). lia.
    + pose proof (Hcells r c Hrc). apply cells_elem in Hrc.
      assert (0 ≤ r * stride X) by (apply Z.mul_nonneg_nonneg; lia). lia.
Qed.

Lemma in_bounds_insert_other sd (m : mem) k v p i :
  m !! k = None → in_bounds sd m p i = true →
  in_bounds sd (<[k := v]> m) p i = true.
Proof.
  intros Hk (q & b & -> & Hb & ?)%in_bounds_spec.
  apply in_bounds_spec. exists q, b. split; [done|]. split; [|done].
  rewrite lookup_insert_ne; [done|]. intros ->. congruence.
Qed.

Lemma writable_insert_other sd (m : mem) X k v :
  m !! k = None → writable sd m X = true →
  writable sd (<[k := v]> m) X = true.
Proof.
  intros Hk. unfold writable. rewrite !andb_true_iff.
  intros [[? Hp] Hall]. repeat split; try tauto.
  - unfold points_into in *. destruct (elements X) as [q|]; [|done].
    destruct (m !! p_blk q) as [b|] eqn:Hb; [|done].
    rewrite lookup_insert_ne; [by rewrite Hb|]. intros ->. congruence.
  - rewrite forallb_forall in *. intros rc Hrc.
    by apply in_bounds_insert_other, Hall.
Qed.

Lemma GetSubMatrix_set sd A R C T r c v m :
  MatSetElement sd (GetSubMatrix A R C T) r c v m
  = MatSetElement sd A (R * T + r) (C * T + c) v m.
Proof.
  unfold MatSetElement, write; simpl. rewrite store_ptr_add.
  by replace (R * stride A * T + C * T + (r * stride A + c))
    with ((R * T + r) * stride A + (C * T + c)) by lia.
Qed.

Section TiledBlock.

(** One block [(R, C)] of the tiled kernel, on device matrices [dA] and
    [dB] that are as in memory [md], with its scratch memory in the buffer
    [shb]. *)
Context (md : mem) (dA dB : Mat) (R C : Z) (shb : nat).
Hypothesis HA : readable OnDevice md dA = true.
Hypothesis HB : readable OnDevice md dB = true.
Hypothesis Hshape : width dA = height dB.
Hypothesis HR : 0 ≤ R ∧ R * 4 + 4 ≤ height dA.
Hypothesis HC : 0 ≤ C ∧ C * 4 + 4 ≤ width dB.
Hypothesis HshA : blk_of dA ≠ Some shb.
Hypothesis HshB : blk_of dB ≠ Some shb.

(** Between the two barriers: every thread stages its element of the two
    tiles. *)
Lemma k1_load_phase K ms (ths : list (dim3 * float)) :
  0 ≤ K → K * 4 + 4 ≤ width dA →
  writable OnDevice ms (scratch (Ptr shb 0) 4) = true →
  (∀ i, load OnDevice ms (elements dA) i = load OnDevice md (elements dA) i) →
  (∀ i, load OnDevice ms (elements dB) i = load OnDevice md (elements dB) i) →
  (∀ t, t ∈ ths → t.1 ∈ block_threads dimBlock) →
  ∃ ms',
    forM_ ths
      (λ '(threadIdx, _),
         let r := int32 (dim_y threadIdx) in
         let c := int32 (dim_x threadIdx) in
         do a <- read (λ m, MatGetElement OnDevice m (GetSubMatrix dA R K 4) r c);
         write (λ m, store OnDevice m (Some (Ptr shb 0)) (r * 4 + c) a) ;;
         do b <- read (λ m, MatGetElement OnDevice m (GetSubMatrix dB K C 4) r c);
         write (λ m, store OnDevice m (Some (Ptr shb 16)) (r * 4 + c) b)) ms
    = Done tt ms'
    ∧ updated ms ms' (scratch (Ptr shb 0) 4) (staged md dA dB R C K 4)
        (ths ≫= λ t, [(dim_y t.1, dim_x t.1); (4 + dim_y t.1, dim_x t.1)]).
Proof.
  intros HK HK' HS HfA HfB Hths.
  pose proof HA as [_ HgetA]%readable_spec.
  pose proof HB as [_ HgetB]%readable_spec.
  match goal with |- ∃ _, forM_ _ ?b _ = _ ∧ _ => set (body := b) end.
  cut (∀ t done m1, t ∈ ths →
         updated ms m1 (scratch (Ptr shb 0) 4) (staged md dA dB R C K 4) done →
         ∃ m2, body t m1 = Done tt m2
               ∧ updated ms m2 (scratch (Ptr shb 0) 4) (staged md dA dB R C K 4)
                   (done ++ [(dim_y t.1, dim_x t.1); (4 + dim_y t.1, dim_x t.1)])).
  { intros Hbody.
    apply (forM__updated ms (scratch (Ptr shb 0) 4) (staged md dA dB R C K 4) ths
             (λ t, [(dim_y t.1, dim_x t.1); (4 + dim_y t.1, dim_x t.1)])
             body Hbody [] ms).
    by apply (updated_refl OnDevice). }
  unfold body. clear body.
  intros [ti acc] done m1 Ht%Hths%block_threads_elem Hu.
  change (0 ≤ dim_x ti < 4 ∧ 0 ≤ dim_y ti < 4) in Ht.
  cbv zeta. rewrite !int32_small by lia.
  set (r := dim_y ti) in *. set (c := dim_x ti) in *.
  (* the element of the tile of A *)
  unfold bind at 1. unfold read at 1.
  rewrite GetSubMatrix_get. unfold MatGetElement at 1.
  rewrite (updated_load_other OnDevice ms m1 (scratch (Ptr shb 0) 4) _ done) by done.
  rewrite HfA. fold (MatGetElement OnDevice md dA (R * 4 + r) (K * 4 + c)).
  rewrite HgetA by (apply cells_elem; lia).
  (* goes to Asubs *)
  destruct (updated_set OnDevice ms m1 (scratch (Ptr shb 0) 4) (staged md dA dB R C K 4) done r c)
    as (m2 & Hst & Hu2); [done..|apply cells_elem; simpl; lia|].
  unfold staged at 1 in Hst.
  rewrite (proj2 (Z.ltb_lt r 4)) in Hst by lia.
  unfold bind at 1.
  change (write (λ m, store OnDevice m (Some (Ptr shb 0)) (r * 4 + c)
                        (elem OnDevice md dA (R * 4 + r) (K * 4 + c))) m1)
    with (MatSetElement OnDevice (scratch (Ptr shb 0) 4) r c
            (elem OnDevice md dA (R * 4 + r) (K * 4 + c)) m1).
  rewrite Hst.
  (* the element of the tile of B *)
  unfold bind at 1. unfold read at 1.
  rewrite GetSubMatrix_get. unfold MatGetElement at 1.
  rewrite (updated_load_other OnDevice ms m2 (scratch (Ptr shb 0) 4) _ (done ++ [(r, c)])) by done.
  rewrite HfB. fold (MatGetElement OnDevice md dB (K * 4 + r) (C * 4 + c)).
  rewrite HgetB by (apply cells_elem; lia).
  (* goes to Bsubs *)
  destruct (updated_set OnDevice ms m2 (scratch (Ptr shb 0) 4) (staged md dA dB R C K 4)
              (done ++ [(r, c)]) (4 + r) c)
    as (m3 & Hst3 & Hu3); [done..|apply cells_elem; simpl; lia|].
  unfold staged at 1 in Hst3.
  rewrite (proj2 (Z.ltb_ge (4 + r) 4)) in Hst3 by lia.
  replace (K * 4 + (4 + r - 4)) with (K * 4 + r) in Hst3 by lia.
  exists m3. split.
  - rewrite <- Hst3. unfold MatSetElement, write. simpl.
    by replace (0 + ((4 + r) * 4 + c)) with (16 + (r * 4 + c)) by lia.
  - by rewrite <- app_assoc in Hu3.
Qed.

(** After the second barrier: every thread adds the [4] products of its
    row of [Asubs] and its column of [Bsubs] to its running total. *)
Lemma k1_acc_phase K ms ms' cs (ths : list (dim3 * float)) :
  writable OnDevice ms (scratch (Ptr shb 0) 4) = true →
  updated ms ms' (scratch (Ptr shb 0) 4) (staged md dA dB R C K 4) cs →
  (∀ rc, rc ∈ cells (scratch (Ptr shb 0) 4) → rc ∈ cs) →
  (∀ t, t ∈ ths → t.1 ∈ block_threads dimBlock) →
  mapM (λ '(threadIdx, Csub_rc),
          let r := int32 (dim_y threadIdx) in
          let c := int32 (dim_x threadIdx) in
          Csub_rc ←
            foldO (seqZ 0 4)
              (λ k Csub_rc,
                 a ← load OnDevice ms' (Some (Ptr shb 0)) (r * 4 + k);
                 b ← load OnDevice ms' (Some (Ptr shb 16)) (k * 4 + c);
                 Some (F32.add Csub_rc (F32.mul a b)))
              Csub_rc;
          Some (threadIdx, Csub_rc))
       ths
  = Some ((λ t, (t.1, dot_from t.2
                        (elem OnDevice md dA (R * 4 + dim_y t.1))
                        (λ k, elem OnDevice md dB k (C * 4 + dim_x t.1))
                        (K * 4) 4)) <$> ths).
Proof.
  intros HS Hu Hall Hths. apply mapM_fmap.
  intros [ti acc] Ht%Hths%block_threads_elem.
  change (0 ≤ dim_x ti < 4 ∧ 0 ≤ dim_y ti < 4) in Ht.
  cbv zeta. rewrite !int32_small by lia. simpl fst. simpl snd.
  set (r := dim_y ti) in *. set (c := dim_x ti) in *.
  rewrite dot_from_shift.
  rewrite (foldO_foldl _ _
             (λ s k, F32.add s
                (F32.mul (elem OnDevice md dA (R * 4 + r) (K * 4 + k))
                         (elem OnDevice md dB (K * 4 + k) (C * 4 + c))))).
  { done. }
  intros k s Hk%elem_of_seqZ.
  assert (load OnDevice ms' (Some (Ptr shb 0)) (r * 4 + k)
          = Some (elem OnDevice md dA (R * 4 + r) (K * 4 + k))) as ->.
  { change (load OnDevice ms' (Some (Ptr shb 0)) (r * 4 + k))
      with (MatGetElement OnDevice ms' (scratch (Ptr shb 0) 4) r k).
    rewrite (updated_get OnDevice ms ms' (scratch (Ptr shb 0) 4) (staged md dA dB R C K 4) cs r k);
      try done.
    - unfold staged. by rewrite (proj2 (Z.ltb_lt r 4)) by lia.
    - apply Hall, cells_elem. simpl. lia. }
  assert (load OnDevice ms' (Some (Ptr shb 16)) (k * 4 + c)
          = Some (elem OnDevice md dB (K * 4 + k) (C * 4 + c))) as ->.
  { change (Some (Ptr shb 16))
      with (q ← Some (Ptr shb 0); Some (ptr_add q 16)).
    rewrite load_ptr_add.
    replace (16 + (k * 4 + c)) with ((4 + k) * 4 + c) by lia.
    change (load OnDevice ms' (Some (Ptr shb 0)) ((4 + k) * 4 + c))
      with (MatGetElement OnDevice ms' (scratch (Ptr shb 0) 4) (4 + k) c).
    rewrite (updated_get OnDevice ms ms' (scratch (Ptr shb 0) 4) (staged md dA dB R C K 4) cs
               (4 + k) c); try done.
    - unfold staged. rewrite (proj2 (Z.ltb_ge (4 + k) 4)) by lia.
      by replace (K * 4 + (4 + k - 4)) with (K * 4 + k) by lia.
    - apply Hall, cells_elem. simpl. lia. }
  done.
Qed.

End TiledBlock.

Lemma writable_blk_ne sd (m : mem) X k :
  writable sd m X = true → m !! k = None → blk_of X ≠ Some k.
Proof.
  intros (_ & _ & _ & (q & b & HX & Hb & _) & _)%writable_spec Hk.
  unfold blk_of. rewrite HX. simpl. intros [= <-]. congruence.
Qed.

Lemma load_insert_other sd (m : mem) k v p i :
  p_blk <$> p ≠ Some k → load sd (<[k := v]> m) p i = load sd m p i.
Proof.
  intros Hne. destruct p as [q|]; [|done]. apply load_other_block.
  apply lookup_insert_ne. intros ->. by apply Hne.
Qed.

Lemma scratch_writable (m : mem) sh sdata :
  length sdata = 32%nat →
  writable OnDevice (<[sh := Buffer SharedMem sdata]> m) (scratch (Ptr sh 0) 4)
  = true.
Proof.
  intros Hlen.
  apply (writable_intro OnDevice _ _ (Ptr sh 0) (Buffer SharedMem sdata));
    try done.
  - simpl. apply lookup_insert_eq.
  - simpl. lia.
  - intros r c Hrc%cells_elem. simpl in *. lia.
Qed.

Lemma block_threads_dimBlock ti :
  ti ∈ block_threads dimBlock ↔ 0 ≤ dim_x ti < 4 ∧ 0 ≤ dim_y ti < 4.
Proof. apply block_threads_elem. Qed.

Lemma scratch_cells_staged sh (ths : list (dim3 * float)) :
  (∀ ti, ti ∈ block_threads dimBlock → ∃ acc, (ti, acc) ∈ ths) →
  ∀ rc, rc ∈ cells (scratch sh 4) →
    rc ∈ (ths ≫= λ t, [(dim_y t.1, dim_x t.1); (4 + dim_y t.1, dim_x t.1)]).
Proof.
  intros Hall [r c] Hrc%cells_elem. simpl in Hrc.
  apply list_elem_of_bind.
  destruct (decide (r < 4)).
  - destruct (Hall (Dim3 c r)) as [acc Hacc];
      [apply block_threads_dimBlock; simpl; lia|].
    exists (Dim3 c r, acc). split; [simpl; apply list_elem_of_here|done].
  - destruct (Hall (Dim3 c (r - 4))) as [acc Hacc];
      [apply block_threads_dimBlock; simpl; lia|].
    exists (Dim3 c (r - 4), acc). split; [|done].
    simpl. apply list_elem_of_further.
    replace (4 + (r - 4)) with r by lia. apply list_elem_of_here.
Qed.

Lemma MatMult_k1_updated dA dB dC md m bi done :
  readable OnDevice md dA = true → readable OnDevice md dB = true →
  writable OnDevice md dC = true →
  width dA = height dB → height dA = height dC → width dB = width dC →
  blk_of dC ≠ blk_of dA → blk_of dC ≠ blk_of dB →
  height dA < 2 ^ 31 → width dB < 2 ^ 31 → width dA < 2 ^ 31 →
  multiple_of BLOCK_SIZE (width dA) = true →
  0 ≤ dim_y bi ∧ dim_y bi * 4 + 4 ≤ height dA →
  0 ≤ dim_x bi ∧ dim_x bi * 4 + 4 ≤ width dB →
  updated md m dC (product OnDevice md dA dB) done →
  ∃ m', MatMult_k1 dA dB dC dimBlock bi sharedMemSize m = Done tt m'
        ∧ updated md m' dC (product OnDevice md dA dB)
            (done ++ (block_threads dimBlock ≫= λ ti,
                        [(dim_y bi * 4 + dim_y ti, dim_x bi * 4 + dim_x ti)])).
Proof.
  intros HA HB HC E1 E2 E3 HCA HCB HhA HwB HwA HmA%Z.eqb_eq HR HCc Hu.
  unfold BLOCK_SIZE in HmA.
  pose proof HA as [HAw _]%readable_spec.
  pose proof HB as [HBw _]%readable_spec.
  pose proof HAw as (_ & HwA0 & _)%writable_spec.
  set (sh := fresh (dom m)).
  assert (m !! sh = None) as Hsh by apply not_elem_of_dom, is_fresh.
  pose proof (proj1 (updated_lookup_None _ _ _ _ _ sh Hu) Hsh) as Hshd.
  pose proof (writable_blk_ne _ _ _ _ HAw Hshd) as HshA.
  pose proof (writable_blk_ne _ _ _ _ HBw Hshd) as HshB.
  pose proof (writable_blk_ne _ _ _ _ HC Hshd) as HshC.
  assert (int32 (dim_y bi) = dim_y bi) as HRi by (apply int32_small; lia).
  assert (int32 (dim_x bi) = dim_x bi) as HCi by (apply int32_small; lia).
  unfold MatMult_k1. unfold bind at 1. unfold alloc at 1. cbv beta iota.
  rewrite HRi, HCi. change (int32 (dim_x dimBlock)) with 4.
  rewrite bool_decide_eq_false_2 by lia.
  change (Some (Ptr (fresh (dom m)) 0)
          ≫= λ p, Some (ptr_add p (size_t (4 * 4 * sizeof_float) `div` sizeof_float)))
    with (Some (Ptr sh 16)).
  change (Z.to_nat (sharedMemSize `div` sizeof_float)) with 32%nat.
  fold sh.
  set (m1 := <[sh := Buffer SharedMem (replicate 32 None)]> m).
  set (a_ := λ ti : dim3, elem OnDevice md dA (dim_y bi * 4 + dim_y ti)).
  set (b_ := λ (ti : dim3) k, elem OnDevice md dB k (dim_x bi * 4 + dim_x ti)).
  set (I := λ (i : nat) (ths : list (dim3 * float)) (ms : mem),
         ths = (λ ti, (ti, dot_from F32.zero (a_ ti) (b_ ti) 0 (Z.of_nat i * 4)))
               <$> block_threads dimBlock
         ∧ ∃ sdata, length sdata = 32%nat
                    ∧ ms = <[sh := Buffer SharedMem sdata]> m).
  unfold bind at 1.
  match goal with
  | |- context [foldM ?l ?body ?s m1] =>
      destruct (foldM_inv I l body s m1)
        as (ths & ms & Hloop & [Hths (sdata & Hlen & Hms)])
  end.
  - split; [done|]. by exists (replicate 32 None).
  - intros i K ths ms [-> HK]%lookup_seqZ [Hths (sdata & Hlen & Hms)].
    assert ((0 + Z.of_nat i) * 4 + 4 ≤ width dA) as HK' by lia.
    assert (∀ j, load OnDevice ms (elements dA) j
                 = load OnDevice md (elements dA) j) as HfA.
    { intros j. subst ms. rewrite load_insert_other by done.
      by eapply updated_load_other. }
    assert (∀ j, load OnDevice ms (elements dB) j
                 = load OnDevice md (elements dB) j) as HfB.
    { intros j. subst ms. rewrite load_insert_other by done.
      by eapply updated_load_other. }
    assert (writable OnDevice ms (scratch (Ptr sh 0) 4) = true) as HS
      by (subst ms; by apply scratch_writable).
    assert (∀ t, t ∈ ths → t.1 ∈ block_threads dimBlock) as Hin.
    { subst ths. by intros t (ti & -> & ?)%list_elem_of_fmap. }
    destruct (k1_load_phase md dA dB (dim_y bi) (dim_x bi) sh HA HB E1
                HR HCc HshA HshB (0 + Z.of_nat i) ms ths)
      as (ms1 & Hload & Hu1); try done; try lia.
    pose proof (k1_acc_phase md dA dB (dim_y bi) (dim_x bi) sh
                  (0 + Z.of_nat i) ms ms1 _ ths HS Hu1) as Hacc.
    unfold bind.
    match type of Hload with
    | ?lhs = _ =>
        match goal with
        | |- context [forM_ ths ?b ms] => change (forM_ ths b ms) with lhs
        end
    end.
    rewrite Hload. unfold read.
    match type of Hacc with
    | _ → _ → ?lhs = _ =>
        match goal with
        | |- context [mapM ?g ths] => change (mapM g ths) with lhs
        end
    end.
    rewrite Hacc; [| |done].
    + eexists _, ms1. split; [reflexivity|]. split.
      * subst ths. rewrite <- list_fmap_compose. apply list_fmap_ext.
        intros j ti _. simpl. f_equal.
        replace (Z.of_nat (S i) * 4) with (Z.of_nat i * 4 + 4) by lia.
        rewrite dot_from_app by lia. unfold a_, b_. f_equal; lia.
      * destruct Hu1 as (q & b & data & HX & Hb & -> & Hlen' & _).
        simpl in HX. injection HX as <-. simpl in Hb. subst ms.
        rewrite lookup_insert_eq in Hb. injection Hb as <-. simpl in *.
        exists data. split; [lia|]. by rewrite insert_insert_eq.
    + apply scratch_cells_staged. intros ti Hti. subst ths.
      eexists. apply list_elem_of_fmap. by exists ti.
  - rewrite Hloop. clear Hloop.
    rewrite length_seqZ in Hths.
    replace (Z.of_nat (Z.to_nat (width dA `quot` 4)) * 4) with (width dA)
      in Hths by lia.
    set (f := product OnDevice md dA dB) in *.
    set (Bsh := Buffer SharedMem sdata) in *.
    assert (updated (<[sh := Bsh]> md) ms dC f done) as Hu0
      by (subst ms; by apply updated_insert_other).
    assert (writable OnDevice (<[sh := Bsh]> md) dC = true) as HC'
      by by apply writable_insert_other.
    assert (∀ t dn m2, t ∈ ths →
              updated (<[sh := Bsh]> md) m2 dC f dn →
              ∃ m3, (let '(threadIdx, Csub_rc) := t in
                     MatSetElement OnDevice
                       (GetSubMatrix dC (dim_y bi) (dim_x bi) 4)
                       (int32 (dim_y threadIdx)) (int32 (dim_x threadIdx))
                       Csub_rc) m2 = Done tt m3
                    ∧ updated (<[sh := Bsh]> md) m3 dC f
                        (dn ++ [(dim_y bi * 4 + dim_y t.1,
                                 dim_x bi * 4 + dim_x t.1)])) as Hbody.
    { intros [ti acc] dn m2 Ht Hu2. subst ths.
      apply list_elem_of_fmap in Ht as (ti' & [= <- ->] & Hti).
      apply block_threads_dimBlock in Hti.
      rewrite !int32_small by lia. rewrite GetSubMatrix_set. simpl fst.
      change (dot_from F32.zero (a_ ti) (b_ ti) 0 (width dA))
        with (f (dim_y bi * 4 + dim_y ti) (dim_x bi * 4 + dim_x ti)).
      apply (updated_set OnDevice); try done.
      apply cells_elem. lia. }
    destruct (forM__updated (<[sh := Bsh]> md) dC f ths
                (λ t, [(dim_y bi * 4 + dim_y t.1, dim_x bi * 4 + dim_x t.1)])
                _ Hbody done ms Hu0) as (m2 & Hrun & Hu2).
    unfold bind.
    match type of Hrun with
    | ?lhs = _ =>
        match goal with
        | |- context [forM_ ths ?b ms] => change (forM_ ths b ms) with lhs
        end
    end.
    rewrite Hrun. unfold release, write. cbn [p_blk p_off].
    rewrite (updated_lookup_other _ _ _ _ _ sh Hu2) by done.
    rewrite lookup_insert_eq. simpl.
    eexists. split; [reflexivity|].
    apply (updated_delete_other md m2 dC f _ sh Bsh) in Hu2; try done.
    revert Hu2. subst ths. rewrite list_fmap_bind. done.
Qed.


(** ** Whole matrices with adjacent rows *)










(** ** The host orchestrator *)






(** ** Binary32 facts *)

Lemma sub_diag_zero_or_nan x :
  F32.sub x x = S754_zero false ∨ F32.sub x x = S754_nan.
Proof.
  destruct x as [[]|[]| |s m e]; simpl; auto.
  left. unfold F32.sub, SFsub. cbv zeta. by rewrite Z.sub_diag.
Qed.

(** [fabs(x - x) > 1e-10f] is false for every [x], NaN and the infinities
    included. *)
Lemma within_tol_refl x : within_tol F32.tol_1e_10 x x = true.
Proof.
  unfold within_tol. by destruct (sub_diag_zero_or_nan x) as [-> | ->].
Qed.

(** ** Device against host *)


(** ** Frames *)

Lemma updated_writable sd m0 m X f cs Z :
  updated m0 m X f cs → writable sd m0 Z = true → writable sd m Z = true.
Proof.
  intros Hu. unfold writable. rewrite !andb_true_iff.
  intros [[? Hp] Hall]. repeat split; try tauto.
  - destruct Hu as (q & b & data & HX & Hb & -> & Hlen & _).
    unfold points_into in *. destruct (elements Z) as [qz|]; [|done].
    destruct (decide (p_blk q = p_blk qz)) as [E|E].
    + rewrite <- E, lookup_insert_eq. rewrite <- E, Hb in Hp. simpl.
      by rewrite Hlen.
    + by rewrite lookup_insert_ne.
  - rewrite forallb_forall in *. intros rc Hrc.
    rewrite (updated_in_bounds sd m0 m X f cs) by done. by apply Hall.
Qed.

Lemma updated_readable sd m0 m X f :
  writable sd m0 X = true → updated m0 m X f (cells X) →
  readable sd m X = true
  ∧ ∀ r c, (r, c) ∈ cells X → elem sd m X r c = f r c.
Proof.
  intros Hw Hu.
  assert (∀ r c, (r, c) ∈ cells X → MatGetElement sd m X r c = Some (f r c))
    as Hget by (intros; by apply (updated_get sd m0 m X f (cells X))).
  split.
  - unfold readable. apply andb_true_iff. split.
    + by apply (updated_writable sd m0 m X f (cells X)).
    + apply forallb_forall. intros [r c] Hrc%list_elem_of_In.
      apply bool_decide_eq_true. simpl. rewrite Hget by done. by eexists.
  - intros r c Hrc. unfold elem. by rewrite Hget.
Qed.

Lemma updated_readable_other sd m0 m X f cs Y :
  updated m0 m X f cs → blk_of X ≠ blk_of Y → readable sd m0 Y = true →
  readable sd m Y = true ∧ ∀ r c, elem sd m Y r c = elem sd m0 Y r c.
Proof.
  intros Hu Hne HY.
  assert (∀ r c, MatGetElement sd m Y r c = MatGetElement sd m0 Y r c)
    as Hget by (intros; by eapply updated_load_other).
  split.
  - unfold readable in *. apply andb_true_iff in HY as [Hw Hall].
    apply andb_true_iff. split.
    + by apply (updated_writable sd m0 m X f cs).
    + rewrite forallb_forall in *. intros rc Hrc. rewrite Hget. by apply Hall.
  - intros r c. unfold elem. by rewrite Hget.
Qed.

(** ** The antidiagonal matrix of the test *)

Lemma MatFillX_updated X m :
  writable OnHost m X = true →
  ∃ m0, MatFillX X m = Done tt m0
        ∧ updated m m0 X (fill_X (width X)) (cells X).
Proof.
  intros HX. unfold MatFillX, for_lt.
  set (f := fill_X (width X)).
  assert (∀ r done m1, r ∈ seqZ 0 (height X) → updated m m1 X f done →
            ∃ m2, forM_ (seqZ 0 (width X))
                    (λ c, MatSetElement OnHost X r c
                            (if r + c =? width X - 1 then F32.one else F32.zero))
                    m1 = Done tt m2
                  ∧ updated m m2 X f
                      (done ++ (seqZ 0 (width X) ≫= λ c, [(r, c)]))) as Hrow.
  { intros r done m1 Hr%elem_of_seqZ Hu.
    apply (forM__updated m X f (seqZ 0 (width X)) (λ c, [(r, c)])); [|done].
    intros c done' m2 Hc%elem_of_seqZ Hu'.
    apply (updated_set OnHost m m2 X f done' r c); try done.
    apply cells_elem. lia. }
  destruct (forM__updated m X f (seqZ 0 (height X))
              (λ r, seqZ 0 (width X) ≫= λ c, [(r, c)]) _ Hrow [] m)
    as (m0 & Hrun & Hu).
  { by apply (updated_refl OnHost). }
  by exists m0.
Qed.

Lemma mul_one_valid y : F32.valid y = true → F32.mul F32.one y = y.
Proof.
  destruct y as [s|s| |s m e]; try reflexivity.
  unfold F32.valid, valid_binary, bounded, canonical_mantissa.
  intros [Hc%Z.eqb_eq He%Z.leb_le]%andb_true_iff.
  unfold F32.mul, F32.one, SFmul. simpl xorb.
  unfold binary_round_aux.
  change (Pos.mul 8388608 m)
    with (m~0~0~0~0~0~0~0~0~0~0~0~0~0~0~0~0~0~0~0~0~0~0~0)%positive.
  unfold shr_fexp at 1.
  assert (Zdigits2 (Z.pos m~0~0~0~0~0~0~0~0~0~0~0~0~0~0~0~0~0~0~0~0~0~0~0)
          = Zpos (digits2_pos m) + 23) as Hd by (simpl; lia).
  rewrite Hd.
  replace (Z.pos (digits2_pos m) + 23 + (-23 + e))
    with (Z.pos (digits2_pos m) + e) by lia.
  rewrite Hc. replace (e - (-23 + e)) with 23 by lia.
  unfold shr at 1.
  change (SpecFloat.iter_pos shr_1 23 _)
    with (Build_shr_record (Z.pos m) false false).
  cbn [shr_m loc_of_shr_record round_nearest_even].
  replace (-23 + e + 23) with e by lia.
  unfold shr_fexp, Zdigits2. rewrite Hc, Z.sub_diag.
  cbn [shr shr_record_of_loc shr_m].
  by rewrite (proj2 (Z.leb_le _ _) He).
Qed.

Lemma mul_zero_l y :
  F32.mul F32.zero y = S754_nan ∧ F32.nonfinite y = true
  ∨ (∃ s, F32.mul F32.zero y = S754_zero s) ∧ F32.nonfinite y = false.
Proof. destruct y as [[]|[]| |[] m e]; simpl; eauto. Qed.

Lemma add_zero_r a s : F32.canonical a = true → F32.add a (S754_zero s) = a.
Proof. by destruct a as [[]|[]| |[] m e], s. Qed.

Lemma add_nan_r a : F32.add a S754_nan = S754_nan.
Proof. by destruct a as [[]|[]| |[] m e]. Qed.

Lemma canon_canonical y : F32.canonical (F32.canon y) = true.
Proof. by destruct y as [[]|[]| |[] m e]. Qed.

Lemma canon_idem y : F32.canon (F32.canon y) = F32.canon y.
Proof. by destruct y as [[]|[]| |[] m e]. Qed.

Lemma canon_canonical_id y : F32.canonical y = true → F32.canon y = y.
Proof. by destruct y as [[]|[]| |[] m e]. Qed.

Lemma canon_valid y : F32.valid y = true → F32.valid (F32.canon y) = true.
Proof. by destruct y as [[]|[]| |[] m e]. Qed.

Lemma within_tol_canon y : within_tol F32.tol_1e_10 (F32.canon y) y = true.
Proof.
  destruct y as [[]|[]| |s m e]; try reflexivity. apply within_tol_refl.
Qed.

Lemma within_tol_nan y : within_tol F32.tol_1e_10 S754_nan y = true.
Proof. by destruct y as [[]|[]| |[] m e]. Qed.

(** A stretch of a row of zeros: the running total is kept, unless the
    column has an infinity or a NaN there, which [0 * _] turns into NaN. *)
Lemma fold_zero_row (x y : Z → float) acc ks :
  (∀ k, k ∈ ks → x k = F32.zero) → F32.canonical acc = true →
  foldl (λ s k, F32.add s (F32.mul (x k) (y k))) acc ks
  = if existsb (λ k, F32.nonfinite (y k)) ks then S754_nan else acc.
Proof.
  revert acc. induction ks as [|k ks IH]; intros acc Hx Hacc; simpl; [done|].
  rewrite Hx by apply list_elem_of_here.
  destruct (mul_zero_l (y k)) as [[-> ->]|[[s ->] ->]]; simpl.
  - rewrite add_nan_r. rewrite IH; [by destruct (existsb _ _)| |done].
    intros. apply Hx. by apply list_elem_of_further.
  - rewrite add_zero_r by done. apply IH; [|done].
    intros. apply Hx. by apply list_elem_of_further.
Qed.

Lemma existsb_ext_elem {A} (f g : A → bool) (l : list A) :
  (∀ x, x ∈ l → f x = g x) → existsb f l = existsb g l.
Proof.
  induction l as [|x l IH]; intros H; simpl; [done|].
  rewrite H by apply list_elem_of_here. f_equal.
  apply IH. intros. apply H. by apply list_elem_of_further.
Qed.

(** Row [r] of the antidiagonal matrix times a column [y]: the element
    [y (n - 1 - r)], with [-0] turned into [+0], or NaN when another element
    of the column is an infinity or a NaN. *)
Lemma antidiagonal_dot (x y : Z → float) n r :
  0 ≤ r < n →
  (∀ k, 0 ≤ k < n → x k = fill_X n r k) →
  F32.valid (y (n - 1 - r)) = true →
  dot_product x y n = reversed y n r.
Proof.
  intros Hr Hx Hv. unfold reversed. set (t := n - 1 - r) in *.
  unfold dot_product, dot_from.
  assert (seqZ 0 n = seqZ 0 t ++ [t] ++ seqZ (t + 1) (n - 1 - t)) as ->.
  { replace n with (t + (1 + (n - 1 - t))) at 1 by lia.
    rewrite seqZ_app by lia. f_equal. rewrite seqZ_app by lia. done. }
  rewrite !foldl_app, !existsb_app. simpl.
  rewrite Z.eqb_refl. simpl.
  rewrite (existsb_ext_elem _ (λ k, F32.nonfinite (y k)) (seqZ 0 t)).
  2:{ intros k Hk%elem_of_seqZ. by rewrite (proj2 (Z.eqb_neq k t)) by lia. }
  rewrite (existsb_ext_elem _ (λ k, F32.nonfinite (y k)) (seqZ (t + 1) _)).
  2:{ intros k Hk%elem_of_seqZ. by rewrite (proj2 (Z.eqb_neq k t)) by lia. }
  rewrite (fold_zero_row x y F32.zero (seqZ 0 t)); [|
    intros k Hk%elem_of_seqZ; rewrite Hx by lia; unfold fill_X;
    by rewrite (proj2 (Z.eqb_neq _ _)) by lia |done].
  rewrite (Hx t) by lia. unfold fill_X at 1.
  rewrite (proj2 (Z.eqb_eq (r + t) (n - 1))) by lia.
  rewrite mul_one_valid by done.
  destruct (existsb _ (seqZ 0 t)); simpl.
  - rewrite fold_zero_row; [by destruct (existsb _ _)| |done].
    intros k Hk%elem_of_seqZ. rewrite Hx by lia. unfold fill_X.
    by rewrite (proj2 (Z.eqb_neq _ _)) by lia.
  - fold (F32.canon (y t)).
    rewrite fold_zero_row; [done| |apply canon_canonical].
    intros k Hk%elem_of_seqZ. rewrite Hx by lia. unfold fill_X.
    by rewrite (proj2 (Z.eqb_neq _ _)) by lia.
Qed.

Lemma reversed_valid y n r :
  F32.valid (y (n - 1 - r)) = true → F32.valid (reversed y n r) = true.
Proof.
  intros Hv. unfold reversed. destruct (existsb _ _); [done|].
  by apply canon_valid.
Qed.

(** Reversing twice gives back every element, up to the tolerance test. *)
Lemma reversed_twice y n r :
  0 ≤ r < n →
  within_tol F32.tol_1e_10 (reversed (reversed y n) n r) (y r) = true.
Proof.
  intros Hr. unfold reversed at 1.
  destruct (existsb _ _); [apply within_tol_nan|].
  unfold reversed. replace (n - 1 - (n - 1 - r)) with r by lia.
  destruct (existsb _ _); [apply within_tol_nan|].
  rewrite canon_idem. apply within_tol_canon.
Qed.

Lemma existsb_seqZ (P : Z → bool) n :
  existsb P (seqZ 0 n) = true ↔ ∃ k, 0 ≤ k < n ∧ P k = true.
Proof.
  rewrite existsb_exists. split.
  - intros (k & Hk%list_elem_of_In%elem_of_seqZ & HP). exists k. split; [lia|done].
  - intros (k & Hk & HP). exists k. split; [|done].
    apply list_elem_of_In, elem_of_seqZ. lia.
Qed.

Lemma existsb_seqZ_false (P : Z → bool) n :
  existsb P (seqZ 0 n) = false ↔ ∀ k, 0 ≤ k < n → P k = false.
Proof.
  split.
  - intros H k Hk. destruct (P k) eqn:E; [|done].
    rewrite <- H. symmetry. apply existsb_seqZ. by exists k.
  - intros H. destruct (existsb P (seqZ 0 n)) eqn:E; [|done].
    apply existsb_seqZ in E as (k & Hk & HP). by rewrite H in HP.
Qed.

(** A column that is not its own reversal is changed by the reversal. *)
Lemma reversed_differs y n r0 :
  0 ≤ r0 < n → y r0 ≠ y (n - 1 - r0) →
  ∃ r, 0 ≤ r < n ∧ reversed y n r ≠ y r.
Proof.
  intros Hr0 Hne. set (t0 := n - 1 - r0) in *.
  destruct (existsb (λ k, F32.nonfinite (y k)) (seqZ 0 n)) eqn:ENF.
  - (* the column has an infinity or a NaN, at [k0] *)
    apply existsb_seqZ in ENF as (k0 & Hk0 & Hnf).
    set (r1 := n - 1 - k0).
    destruct (existsb (λ r, negb (r =? r1)
                            && negb (bool_decide (y r = S754_nan)))
                (seqZ 0 n)) eqn:EO.
    + apply existsb_seqZ in EO as (r & Hr & [Hr1%negb_true_iff%Z.eqb_neq
        Hy%negb_true_iff%bool_decide_eq_false]%andb_true_iff).
      exists r. split; [done|]. unfold reversed.
      rewrite (proj2 (existsb_seqZ _ n)); [congruence|].
      exists k0. split; [done|]. rewrite Hnf.
      rewrite (proj2 (Z.eqb_neq _ _)) by (unfold r1 in Hr1; lia). done.
    + assert (∀ r, 0 ≤ r < n → r ≠ r1 → y r = S754_nan) as Hnan.
      { intros r Hr Hr1. apply (proj1 (existsb_seqZ_false _ n)) with (k := r) in EO;
          [|done].
        rewrite (proj2 (Z.eqb_neq _ _)) in EO by done. simpl in EO.
        by apply negb_false_iff, bool_decide_eq_true in EO. }
      assert (r0 ≠ t0) as Hrt by (intros E; apply Hne; by rewrite <- E).
      assert (k0 ≠ r1 ∧ y k0 = S754_nan ∧ y r1 ≠ S754_nan) as (Hk1 & Hyk & Hyr).
      { destruct (decide (r0 = r1)) as [E|E].
        - assert (t0 = k0) as Et by (unfold t0, r1 in *; lia).
          assert (y k0 = S754_nan) as Hk
            by (apply Hnan; [done|unfold t0, r1 in *; lia]).
          repeat split; [unfold t0, r1 in *; lia|done|].
          rewrite <- E. rewrite Et, Hk in Hne. done.
        - assert (y r0 = S754_nan) as H0 by by apply Hnan.
          destruct (decide (t0 = r1)) as [E'|E'].
          + assert (r0 = k0) as Er by (unfold t0, r1 in *; lia).
            repeat split; [unfold t0, r1 in *; lia|by rewrite <- Er|].
            rewrite <- E'. rewrite H0 in Hne. congruence.
          + exfalso. apply Hne. rewrite H0. symmetry.
            apply Hnan; [unfold t0; lia|done]. }
      exists r1. split; [unfold r1; lia|]. unfold reversed.
      replace (n - 1 - r1) with k0 by (unfold r1; lia).
      rewrite Hyk. change (F32.canon S754_nan) with S754_nan.
      intros E. apply Hyr. rewrite <- E.
      by destruct (existsb (λ k, negb (k =? k0) && _) _).
  - (* every element of the column is finite *)
    assert (∀ r, 0 ≤ r < n → reversed y n r = F32.canon (y (n - 1 - r))) as Hz.
    { intros r Hr. unfold reversed.
      rewrite (proj2 (existsb_seqZ_false _ n)); [done|].
      intros k Hk. rewrite (proj1 (existsb_seqZ_false _ n) ENF k Hk).
      apply andb_false_r. }
    destruct (decide (reversed y n r0 = y r0)) as [E|E];
      [|by exists r0].
    exists t0. split; [unfold t0; lia|].
    rewrite Hz by (unfold t0; lia).
    replace (n - 1 - t0) with r0 by (unfold t0; lia).
    rewrite Hz in E by done. fold t0 in E.
    rewrite <- E, canon_idem, E. done.
Qed.

Lemma reversed_ext y y' n r :
  0 ≤ r < n → (∀ k, 0 ≤ k < n → y k = y' k) →
  reversed y n r = reversed y' n r.
Proof.
  intros Hr Hy. unfold reversed. rewrite (Hy (n - 1 - r)) by lia.
  rewrite (existsb_ext_elem _
             (λ k, negb (k =? n - 1 - r) && F32.nonfinite (y' k)) (seqZ 0 n));
    [done|].
  intros k Hk%elem_of_seqZ. by rewrite Hy by lia.
Qed.

Lemma all_valid_spec sd m Y r c :
  all_valid sd m Y = true → (r, c) ∈ cells Y →
  F32.valid (elem sd m Y r c) = true.
Proof.
  unfold all_valid. rewrite forallb_forall. intros H Hrc.
  by apply (H (r, c)), list_elem_of_In.
Qed.

(** The product of the antidiagonal matrix and [Y], element by element. *)
Lemma antidiagonal_product (X Y : Mat) (m : mem) (y : Z → Z → float) r c :
  height X = width X → height Y = width X →
  (∀ r k, (r, k) ∈ cells X → elem OnHost m X r k = fill_X (width X) r k) →
  (∀ k, 0 ≤ k < height Y → elem OnHost m Y k c = y k c) →
  (∀ k, 0 ≤ k < height Y → F32.valid (y k c) = true) →
  0 ≤ r < height Y →
  product OnHost m X Y r c = reversed (λ k, y k c) (height Y) r.
Proof.
  intros E1 E2 HX HY Hv Hr. unfold product. rewrite <- E2.
  rewrite (antidiagonal_dot _ _ (height Y) r); try done.
  - apply reversed_ext; [done|]. apply HY.
  - intros k Hk. rewrite HX by (apply cells_elem; lia). by rewrite E2.
  - rewrite HY by lia. apply Hv. lia.
Qed.


(** ** The scenario of the test *)

(** The literal [1e-10] as a [float]. *)
Example tol_1e_10_value : F32.tol_1e_10 = S754_finite false 14411519 (-57).
Proof. reflexivity. Qed.

(** Every assertion of the test holds, with either kernel. *)
Example test00_main_passes : ∃ m, test00_main ∅ = Done tt m.
Proof. eexists. vm_compute. reflexivity. Qed.

(** [Z = X * Y] is [Y] with its rows reversed: [Z[0,0] = Y[3,0] = 24]. *)
Example scenario_reverses_rows :
  ∃ m', MatMultHost Scenario.X Scenario.Y Scenario.Z Scenario.m = Done tt m'
        ∧ MatGetElement OnHost m' Scenario.Z 0 0 = Some (F32.of_int 24)
        ∧ MatGetElement OnHost m' Scenario.Y 3 0 = Some (F32.of_int 24).
Proof. eexists. vm_compute. repeat split. Qed.



Lemma MatMultHost_writes_only_C_witness :
  ∃ m', MatMultHost Scenario.X Scenario.Y Scenario.Z Scenario.m = Done tt m'
     ∧ (∀ r c, MatGetElement OnHost m' Scenario.X r c
               = MatGetElement OnHost Scenario.m Scenario.X r c)
     ∧ (∀ r c, MatGetElement OnHost m' Scenario.Y r c
               = MatGetElement OnHost Scenario.m Scenario.Y r c).
Proof.
  destruct (MatMultHost_writes_only_C
              Scenario.X Scenario.Y Scenario.Z Scenario.m)
    as (m' & Hrun & HX & HY & _); [by vm_compute..|].
  exists m'. split; [exact Hrun|]. split; [exact HX|exact HY].
Defined.


Lemma MatEqual_compares_within_tolerance_witness :
  ∃ b, MatEqual Scenario.Y Scenario.Z F32.tol_1e_10 Scenario.m = Some b
       ∧ (b = true ↔
          ∀ r c, 0 ≤ r < height Scenario.Y → 0 ≤ c < width Scenario.Y →
            within_tol F32.tol_1e_10
              (elem OnHost Scenario.m Scenario.Y r c)
              (elem OnHost Scenario.m Scenario.Z r c) = true).
Proof.
  destruct (MatEqual_compares_within_tolerance
              Scenario.Y Scenario.Z F32.tol_1e_10 Scenario.m) as [_ H].
  apply H; by vm_compute.
Defined.
(** ** Matrices of any size *)







Lemma round_down_multiple n :
  multiple_of BLOCK_SIZE n = true → round_down BLOCK_SIZE n = n.
Proof.
  unfold round_down, multiple_of, BLOCK_SIZE. intros ?%Z.eqb_eq. lia.
Qed.












Lemma updated_dom m0 m X f cs : updated m0 m X f cs → dom m = dom m0.
Proof.
  intros (q & b & data & _ & Hb & -> & _). apply set_eq. intros k.
  rewrite !elem_of_dom. destruct (decide (k = p_blk q)) as [->|Hk].
  - rewrite lookup_insert_eq, Hb. split; by eexists.
  - by rewrite lookup_insert_ne.
Qed.

(** ** Where the device result is not the host result *)








(** ** The dot product, element by element *)

(** C2, as first stated, fails when the result shares its buffer with an
    operand.  [MatMultHost(A, B, A)] on [A = [1 2; 3 4]] and
    [B = [5 6; 7 8]]: the shapes are compatible, the call finishes, and
    [A[0,1]] ends as [19 * 6 + 2 * 8 = 130], computed from the [A[0,0] = 19]
    just stored, where the dot product of row 0 and column 1 is [22]. *)
Lemma in_place_product_is_no_dot_product :
  readable OnHost InPlace.m InPlace.A = true
  ∧ readable OnHost InPlace.m InPlace.B = true
  ∧ writable OnHost InPlace.m InPlace.A = true
  ∧ width InPlace.A = height InPlace.B
  ∧ width InPlace.B = width InPlace.A
  ∧ MatMultHost InPlace.A InPlace.B InPlace.A InPlace.m
    = Done tt (final (MatMultHost InPlace.A InPlace.B InPlace.A InPlace.m))
  ∧ MatGetElement OnHost
      (final (MatMultHost InPlace.A InPlace.B InPlace.A InPlace.m))
      InPlace.A 0 1
    = Some (F32.of_int 130)
  ∧ dot_product (λ k, elem OnHost InPlace.m InPlace.A 0 k)
      (λ k, elem OnHost InPlace.m InPlace.B k 1) (width InPlace.A)
    = F32.of_int 22.
Proof. repeat split; by vm_compute. Qed.

(** One thread of the direct kernel: it reads before it writes, so its
    element is right wherever the result lies. *)
Lemma MatMult_k0_element dA dB dC md bd bi ti :
  readable OnDevice md dA = true → readable OnDevice md dB = true →
  writable OnDevice md dC = true →
  width dA = height dB → height dA = height dC → width dB = width dC →
  let r := dim_y bi * dim_y bd + dim_y ti in
  let c := dim_x bi * dim_x bd + dim_x ti in
  0 ≤ r < height dC → 0 ≤ c < width dC →
  r < 2 ^ 31 → c < 2 ^ 31 →
  ∃ md', MatMult_k0 dA dB dC bd bi ti md = Done tt md'
         ∧ updated md md' dC (λ _ _, product OnDevice md dA dB r c) [(r, c)].
Proof.
  intros HA HB HC E1 E2 E3 r c Hr Hc Hr' Hc'.
  unfold MatMult_k0. fold r c. rewrite !int32_uint32 by lia.
  unfold bind, read.
  rewrite (MatMultElement_product OnDevice md dA dB r c) by (try done; lia).
  apply (updated_set OnDevice md md dC
           (λ _ _, product OnDevice md dA dB r c) [] r c); try done.
  - by apply (updated_refl OnDevice).
  - apply cells_elem. lia.
Qed.

(** C2.  With compatible shapes, operands that can be read and a result that
    can be written: if the result lies in another buffer than the operands,
    [MatMultHost] finishes and leaves in every element [(r, c)] of [C] the
    dot product of row [r] of [A] and column [c] of [B], the sum for [k] from
    0 to [width A - 1] of [A[r,k] * B[k,c]]; and the body one thread of the
    direct kernel runs leaves that dot product, of the operands as they were
    when the thread started, in its own element, on device matrices [dA],
    [dB], [dC] that may lie anywhere. *)
Theorem multiplication_sets_dot_products (A B C : Mat) (m : mem) :
  readable OnHost m A = true → readable OnHost m B = true →
  writable OnHost m C = true →
  width A = height B → height A = height C → width B = width C →
  blk_of C ≠ blk_of A → blk_of C ≠ blk_of B →
  (∃ m', MatMultHost A B C m = Done tt m'
     ∧ ∀ r c, 0 ≤ r < height C → 0 ≤ c < width C →
         MatGetElement OnHost m' C r c
         = Some (dot_product (λ k, elem OnHost m A r k)
                   (λ k, elem OnHost m B k c) (width A)))
  ∧ (∀ dA dB dC md blockDim blockIdx threadIdx,
       readable OnDevice md dA = true → readable OnDevice md dB = true →
       writable OnDevice md dC = true →
       width dA = height dB → height dA = height dC → width dB = width dC →
       let r := dim_y blockIdx * dim_y blockDim + dim_y threadIdx in
       let c := dim_x blockIdx * dim_x blockDim + dim_x threadIdx in
       0 ≤ r < height dC → 0 ≤ c < width dC →
       r < 2 ^ 31 → c < 2 ^ 31 →
       ∃ md', MatMult_k0 dA dB dC blockDim blockIdx threadIdx md = Done tt md'
         ∧ MatGetElement OnDevice md' dC r c
           = Some (dot_product (λ k, elem OnDevice md dA r k)
                     (λ k, elem OnDevice md dB k c) (width dA))).
Proof.
  intros HA HB HC E1 E2 E3 HCA HCB. split.
  - destruct (MatMultHost_updated A B C m) as (m' & Hrun & Hu); try done.
    exists m'. split; [done|]. intros r c Hr Hc.
    apply (updated_get OnHost m m' C (product OnHost m A B) (cells C));
      try done.
    apply cells_elem. lia.
  - clear. intros dA dB dC md bd bi ti HA HB HC E1 E2 E3 r c Hr Hc Hr' Hc'.
    destruct (MatMult_k0_element dA dB dC md bd bi ti) as (md' & Hrun & Hu);
      try done.
    exists md'. split; [done|]. fold r c in Hu.
    apply (updated_get OnDevice md md' dC _ [(r, c)] r c HC Hu).
    by apply list_elem_of_singleton.
Qed.

Lemma multiplication_sets_dot_products_witness :
  (∃ m', MatMultHost Scenario.X Scenario.Y Scenario.Z Scenario.m = Done tt m'
     ∧ ∀ r c, 0 ≤ r < height Scenario.Z → 0 ≤ c < width Scenario.Z →
         MatGetElement OnHost m' Scenario.Z r c
         = Some (dot_product (λ k, elem OnHost Scenario.m Scenario.X r k)
                   (λ k, elem OnHost Scenario.m Scenario.Y k c)
                   (width Scenario.X)))
  ∧ (let r := dim_y (Dim3 1 0) * dim_y dimBlock + dim_y (Dim3 2 3) in
     let c := dim_x (Dim3 1 0) * dim_x dimBlock + dim_x (Dim3 2 3) in
     ∃ md', MatMult_k0 OnGPU.A OnGPU.B OnGPU.C dimBlock (Dim3 1 0) (Dim3 2 3)
              OnGPU.m = Done tt md'
       ∧ MatGetElement OnDevice md' OnGPU.C r c
         = Some (dot_product (λ k, elem OnDevice OnGPU.m OnGPU.A r k)
                   (λ k, elem OnDevice OnGPU.m OnGPU.B k c) (width OnGPU.A))).
Proof.
  destruct (multiplication_sets_dot_products
              Scenario.X Scenario.Y Scenario.Z Scenario.m) as [Hh Hd];
    [by vm_compute..|].
  split; [exact Hh|].
  apply (Hd OnGPU.A OnGPU.B OnGPU.C OnGPU.m dimBlock (Dim3 1 0) (Dim3 2 3));
    by vm_compute.
Defined.

(** ** The launch of [MatMultGPU] *)

Lemma bind_ext {A B} (c : M A) (k1 k2 : A → M B) m :
  (∀ a m', k1 a m' = k2 a m') → bind c k1 m = bind c k2 m.
Proof. intros H. unfold bind. by destruct (c m). Qed.

(** The workers of the grid of [MatMultGPU] and their elements. *)
Lemma grid_worker_cell hA wB w :
  0 ≤ hA < 2 ^ 31 → 0 ≤ wB < 2 ^ 31 →
  w ∈ workers (Dim3 (wB / BLOCK_SIZE) (hA / BLOCK_SIZE))
        (Dim3 BLOCK_SIZE BLOCK_SIZE) →
  let r := dim_y w.1 * BLOCK_SIZE + dim_y w.2 in
  let c := dim_x w.1 * BLOCK_SIZE + dim_x w.2 in
  worker_cell (Dim3 BLOCK_SIZE BLOCK_SIZE) w = (r, c)
  ∧ 0 ≤ r < hA ∧ 0 ≤ c < wB.
Proof.
  intros HA HB [Hg Hb]%workers_elem r c.
  apply grid_blocks_elem in Hg. apply block_threads_elem in Hb.
  unfold worker_cell, r, c, BLOCK_SIZE in *. simpl in *.
  rewrite !int32_uint32 by lia. split; [done|]. lia.
Qed.

(** C7.  [MatMultGPU] runs its kernel over a grid of
    [(width B / BLOCK_SIZE, height A / BLOCK_SIZE)] blocks of
    [BLOCK_SIZE x BLOCK_SIZE] threads: between the copies to the device and
    the copy back it runs, when the launch is within the limits of the
    device, the direct kernel once for every thread of every block of that
    grid, or the tiled kernel once for every block of that grid with that
    block size.  A block has [BLOCK_SIZE * BLOCK_SIZE] threads and the grid
    [(width B / BLOCK_SIZE) * (height A / BLOCK_SIZE)] blocks, all distinct.
    A thread of the direct kernel sets the element [worker_cell] gives it and
    nothing else, and a block of the tiled kernel sets the elements of its
    [BLOCK_SIZE * BLOCK_SIZE] threads and nothing else.  When [width B] and
    [height A] are multiples of [BLOCK_SIZE] (and [C] has the shape of the
    product), these elements are the elements of [C], each exactly once. *)
Theorem launch_assigns_one_worker_per_element
    (A B C : Mat) (optimized : bool) (m : mem) :
  0 ≤ height A < 2 ^ 31 → 0 ≤ width B < 2 ^ 31 →
  let gridDim := Dim3 (width B / BLOCK_SIZE) (height A / BLOCK_SIZE) in
  let blockDim := Dim3 BLOCK_SIZE BLOCK_SIZE in
  MatMultGPU A B C optimized m
  = (assert (width A =? height B) ;;
     assert (height A =? height C) ;;
     assert (width B =? width C) ;;
     do d_A <- MatInitGPU (height A) (width A);
     cudaMemcpy (elements d_A) (elements A) (size A) cudaMemcpyHostToDevice ;;
     do d_B <- MatInitGPU (height B) (width B);
     cudaMemcpy (elements d_B) (elements B) (size B) cudaMemcpyHostToDevice ;;
     do d_C <- MatInitGPU (height C) (width C);
     (if launch_accepted gridDim blockDim then
        if optimized then
          forM_ (grid_blocks gridDim)
            (λ blockIdx,
               MatMult_k1 d_A d_B d_C blockDim blockIdx
                 (2 * BLOCK_SIZE * BLOCK_SIZE * sizeof_float))
        else
          forM_ (workers gridDim blockDim)
            (λ w, MatMult_k0 d_A d_B d_C blockDim w.1 w.2)
      else ret tt) ;;
     cudaMemcpy (elements C) (elements d_C) (size C) cudaMemcpyDeviceToHost ;;
     cudaFree (elements d_A) ;;
     cudaFree (elements d_B) ;;
     cudaFree (elements d_C)) m
  ∧ length (block_threads blockDim) = Z.to_nat (BLOCK_SIZE * BLOCK_SIZE)
  ∧ NoDup (block_threads blockDim)
  ∧ length (grid_blocks gridDim)
    = Z.to_nat ((width B / BLOCK_SIZE) * (height A / BLOCK_SIZE))
  ∧ NoDup (grid_blocks gridDim)
  ∧ NoDup (workers gridDim blockDim)
  ∧ (∀ dA dB dC md w,
       w ∈ workers gridDim blockDim →
       readable OnDevice md dA = true → readable OnDevice md dB = true →
       writable OnDevice md dC = true →
       width dA = height dB →
       height dA = height A → height dC = height A →
       width dB = width B → width dC = width B →
       ∃ md', MatMult_k0 dA dB dC blockDim w.1 w.2 md = Done tt md'
              ∧ updated md md' dC (product OnDevice md dA dB)
                  [worker_cell blockDim w])
  ∧ (∀ dA dB dC md blockIdx,
       blockIdx ∈ grid_blocks gridDim →
       readable OnDevice md dA = true → readable OnDevice md dB = true →
       writable OnDevice md dC = true →
       width dA = height dB →
       height dA = height A → height dC = height A →
       width dB = width B → width dC = width B →
       blk_of dC ≠ blk_of dA → blk_of dC ≠ blk_of dB →
       width dA < 2 ^ 31 → multiple_of BLOCK_SIZE (width dA) = true →
       ∃ md', MatMult_k1 dA dB dC blockDim blockIdx
                (2 * BLOCK_SIZE * BLOCK_SIZE * sizeof_float) md = Done tt md'
              ∧ updated md md' dC (product OnDevice md dA dB)
                  (worker_cell blockDim
                     <$> ((λ threadIdx, (blockIdx, threadIdx))
                            <$> block_threads blockDim)))
  ∧ (multiple_of BLOCK_SIZE (width B) = true →
     multiple_of BLOCK_SIZE (height A) = true →
     height A = height C → width B = width C →
     worker_cell blockDim <$> workers gridDim blockDim ≡ₚ cells C).
Proof.
  intros HA HB gridDim blockDim.
  assert (dimGrid A B = gridDim) as Hgrid by (by apply dimGrid_eq).
  split; [|split; [|split; [|split; [|split; [|split; [|split; [|split]]]]]]].
  - unfold MatMultGPU. do 3 (apply bind_ext; intros _ ?).
    apply bind_ext. intros d_A ?. apply bind_ext. intros _ ?.
    apply bind_ext. intros d_B ?. apply bind_ext. intros _ ?.
    apply bind_ext. intros d_C m3. cbv zeta. rewrite Hgrid.
    change dimBlock with blockDim.
    unfold bind. destruct optimized.
    + unfold launch_k1. by destruct (launch_accepted gridDim blockDim).
    + unfold launch at 1.
      destruct (launch_accepted gridDim blockDim) eqn:Hok; [|done].
      pose proof (launch_workers gridDim blockDim
                    (MatMult_k0 d_A d_B d_C blockDim) m3 Hok) as E.
      unfold launch in E. rewrite Hok in E. by rewrite E.
  - done.
  - apply (NoDup_bind2 (λ ty tx, Dim3 tx ty)); [|apply NoDup_seqZ..].
    by intros ???? [= -> ->].
  - rewrite grid_blocks_length. simpl. unfold BLOCK_SIZE.
    rewrite Z2Nat.inj_mul by (apply Z.div_pos; lia). lia.
  - apply grid_blocks_NoDup.
  - apply workers_NoDup.
  - intros dA dB dC md w Hw HdA HdB HdC E1 EhA EhC EwB EwC.
    destruct (grid_worker_cell (height A) (width B) w HA HB Hw)
      as (Ecell & Hr & Hc).
    fold blockDim in Ecell. rewrite Ecell.
    destruct (MatMult_k0_element dA dB dC md blockDim w.1 w.2)
      as (md' & Hrun & Hu); try done; simpl; try lia.
    exists md'. split; [exact Hrun|].
    revert Hu. apply updated_equiv; [done|].
    by intros rc [= ->]%list_elem_of_singleton.
  - intros dA dB dC md bi Hbi%grid_blocks_elem HdA HdB HdC E1 EhA EhC EwB EwC
      HCA HCB HwA HmK.
    simpl in Hbi. unfold BLOCK_SIZE in Hbi.
    destruct (MatMult_k1_updated dA dB dC md md bi []) as (md' & Hrun & Hu);
      try done; try lia.
    { by apply (updated_refl OnDevice). }
    exists md'. split; [exact Hrun|].
    revert Hu. apply updated_equiv; [|done].
    intros rc. rewrite app_nil_l, list_elem_of_bind, list_elem_of_fmap.
    split.
    + intros (ti & ->%list_elem_of_singleton & Hti). exists (bi, ti).
      split; [|by apply list_elem_of_fmap_2].
      apply block_threads_dimBlock in Hti.
      unfold worker_cell, blockDim, BLOCK_SIZE. simpl.
      rewrite !int32_uint32 by lia. done.
    + intros (w & -> & (ti & -> & Hti)%list_elem_of_fmap). exists ti.
      split; [|done].
      apply list_elem_of_singleton. apply block_threads_dimBlock in Hti.
      unfold worker_cell, blockDim, BLOCK_SIZE. simpl.
      rewrite !int32_uint32 by lia. done.
  - intros HmB HmA E2 E3. apply NoDup_Permutation.
    + apply NoDup_fmap_2_strong; [|apply workers_NoDup].
      intros w w' Hw Hw'.
      destruct (grid_worker_cell (height A) (width B) w HA HB Hw)
        as (E & _).
      destruct (grid_worker_cell (height A) (width B) w' HA HB Hw')
        as (E' & _).
      fold blockDim in E, E'. rewrite E, E'. clear E E'.
      apply workers_elem in Hw as [_ Hb], Hw' as [_ Hb'].
      apply block_threads_elem in Hb, Hb'.
      destruct w as [[bx by_] [tx ty]], w' as [[bx' by_'] [tx' ty']].
      unfold BLOCK_SIZE in *. simpl in *.
      intros [= E E']. repeat f_equal; lia.
    + apply (NoDup_bind2 pair); [|apply NoDup_seqZ..].
      by intros ???? [= -> ->].
    + intros rc. rewrite <- Hgrid. by apply worker_cells_elem.
Qed.

Lemma launch_assigns_one_worker_per_element_witness :
  let gridDim :=
    Dim3 (width Scenario.Y / BLOCK_SIZE) (height Scenario.X / BLOCK_SIZE) in
  let blockDim := Dim3 BLOCK_SIZE BLOCK_SIZE in
  let w := (Dim3 1 0, Dim3 2 3) in
  (∃ md', MatMult_k0 OnGPU.A OnGPU.B OnGPU.C blockDim w.1 w.2 OnGPU.m
          = Done tt md'
          ∧ updated OnGPU.m md' OnGPU.C
              (product OnDevice OnGPU.m OnGPU.A OnGPU.B)
              [worker_cell blockDim w])
  ∧ (∃ md', MatMult_k1 OnGPU.A OnGPU.B OnGPU.C blockDim (Dim3 1 0)
              (2 * BLOCK_SIZE * BLOCK_SIZE * sizeof_float) OnGPU.m
            = Done tt md'
            ∧ updated OnGPU.m md' OnGPU.C
                (product OnDevice OnGPU.m OnGPU.A OnGPU.B)
                (worker_cell blockDim
                   <$> ((λ threadIdx, (Dim3 1 0, threadIdx))
                          <$> block_threads blockDim)))
  ∧ worker_cell blockDim <$> workers gridDim blockDim ≡ₚ cells Scenario.Z.
Proof.
  intros gridDim blockDim w.
  destruct (launch_assigns_one_worker_per_element
              Scenario.X Scenario.Y Scenario.Z false Scenario.m)
    as (_ & _ & _ & _ & _ & _ & Hk0 & Hk1 & Hperm); [by vm_compute..|].
  split; [|split].
  - apply Hk0; try by vm_compute.
    apply workers_elem.
    split; [apply grid_blocks_elem|apply block_threads_elem]; by vm_compute.
  - apply Hk1; try by vm_compute.
    apply grid_blocks_elem. by vm_compute.
  - apply Hperm; by vm_compute.
Defined.

(** ** The round trip of the test *)

(** C9, as first stated, fails in both halves.
    - [Y = [inf 1; 2 3]]: every hypothesis on the four matrices holds and the
      three calls finish, but [X * (X * Y)] does not restore [Y]: its element
      [(1, 0)] is NaN where [Y[1,0]] is 2, for [0 * inf] is NaN.  ([MatEqual]
      still answers true, as it does for any NaN.)
    - [Y = [2^-100 0; 0 0]]: [Y] is not its own row reversal, [Y[0,0]] is not
      [Y[1,0]], but the comparison of the test does not tell [Z = X * Y] from
      [Y]: the difference is below the tolerance. *)
Lemma round_trip_needs_finite_values_and_visible_differences :
  (writable OnHost Unbounded.m Unbounded.X = true
   ∧ readable OnHost Unbounded.m Unbounded.Y = true
   ∧ writable OnHost Unbounded.m Unbounded.Z = true
   ∧ writable OnHost Unbounded.m Unbounded.Y1 = true
   ∧ all_valid OnHost Unbounded.m Unbounded.Y = true
   ∧ Unbounded.run = Done tt (final Unbounded.run)
   ∧ MatGetElement OnHost (final Unbounded.run) Unbounded.Y1 1 0
     = Some S754_nan
   ∧ MatGetElement OnHost (final Unbounded.run) Unbounded.Y 1 0
     = Some (F32.of_int 2)
   ∧ MatEqual Unbounded.Y1 Unbounded.Y F32.tol_1e_10 (final Unbounded.run)
     = Some true)
  ∧ (readable OnHost Tiny.m Tiny.Y = true
     ∧ all_finite OnHost Tiny.m Tiny.Y = true
     ∧ F32.eqb (elem OnHost Tiny.m Tiny.Y 0 0) (elem OnHost Tiny.m Tiny.Y 1 0)
       = false
     ∧ Tiny.run = Done tt (final Tiny.run)
     ∧ MatEqual Tiny.Y Tiny.Z F32.tol_1e_10 (final Tiny.run) = Some true).
Proof. repeat split; by vm_compute. Qed.

Lemma finite_spec x :
  finite x = true → F32.valid x = true ∧ F32.nonfinite x = false.
Proof.
  unfold finite. intros [? ?%negb_true_iff]%andb_true_iff. done.
Qed.

Lemma finite_canon x : finite x = true → finite (F32.canon x) = true.
Proof. by destruct x as [[]|[]| |[] m e]. Qed.

Lemma all_finite_spec sd m Y r c :
  all_finite sd m Y = true → (r, c) ∈ cells Y →
  finite (elem sd m Y r c) = true.
Proof.
  unfold all_finite. rewrite forallb_forall. intros H Hrc.
  by apply (H (r, c)), list_elem_of_In.
Qed.

(** A column of finite values: the row of the antidiagonal matrix picks its
    mirror element. *)
Lemma reversed_finite y n r :
  0 ≤ r < n → (∀ k, 0 ≤ k < n → finite (y k) = true) →
  reversed y n r = F32.canon (y (n - 1 - r)).
Proof.
  intros Hr Hy. unfold reversed.
  rewrite (proj2 (existsb_seqZ_false _ n)); [done|].
  intros k Hk. destruct (finite_spec _ (Hy k Hk)) as [_ ->].
  apply andb_false_r.
Qed.

Lemma eqb_refl_finite x : finite x = true → F32.eqb x x = true.
Proof.
  destruct x as [s|s| |s m e]; try done. intros _.
  unfold F32.eqb, SFeqb, SFcompare.
  rewrite Z.compare_refl, Pos.compare_cont_refl. by destruct s.
Qed.

(** [x == canon x]: the sign of a zero does not count. *)
Lemma eqb_canon x : finite x = true → F32.eqb (F32.canon x) x = true.
Proof.
  intros H. destruct x as [[]|[]| |s m e]; try done.
  change (F32.canon (S754_finite s m e)) with (S754_finite s m e).
  by apply eqb_refl_finite.
Qed.

(** [fabs(x - canon y) > tol] is [fabs(x - y) > tol]. *)
Lemma within_tol_canon_r tol x y :
  within_tol tol x (F32.canon y) = within_tol tol x y.
Proof.
  destruct y as [[]|[]| |[] m e]; try reflexivity.
  by destruct x as [[]|[]| |[] m e].
Qed.

Lemma forallb_seqZ_false (P : Z → bool) n :
  forallb P (seqZ 0 n) = false ↔ ∃ k, 0 ≤ k < n ∧ P k = false.
Proof.
  split.
  - intros H. destruct (existsb (λ k, negb (P k)) (seqZ 0 n)) eqn:E.
    + apply existsb_seqZ in E as (k & Hk & HP). exists k.
      by apply negb_true_iff in HP.
    + exfalso. assert (forallb P (seqZ 0 n) = true); [|congruence].
      apply forallb_seqZ. intros k Hk.
      apply (proj1 (existsb_seqZ_false _ n) E) in Hk.
      by apply negb_false_iff in Hk.
  - intros (k & Hk & HP). destruct (forallb P (seqZ 0 n)) eqn:E; [|done].
    rewrite (proj1 (forallb_seqZ P n) E k Hk) in HP. done.
Qed.

(** C9.  Let [X] be the [M x M] antidiagonal matrix, as [MatFillX] makes it,
    and [Y] an [M x N] matrix of finite floats.  Then [Z = X * Y] and
    [Y1 = X * Z], both by [MatMultHost], finish; [Z] is [Y] with its rows
    reversed, [Z[r,c]] being [Y[M-1-r,c]], and [Y1] restores [Y], [Y1[r,c]]
    being [Y[r,c]] (in both, a [-0] of [Y] comes out as [+0]), so that
    [Y1[r,c] == Y[r,c]] for every element and [MatEqual] accepts [Y1] as
    equal to [Y] at the tolerance [1e-10] of the test; and [MatEqual] tells
    [Z] from [Y] at that tolerance exactly when some [Y[r,c]] differs from
    its mirror image [Y[M-1-r,c]] by more than the tolerance. *)
Theorem antidiagonal_round_trip (X Y Zm Y1 : Mat) (m : mem) :
  writable OnHost m X = true → readable OnHost m Y = true →
  writable OnHost m Zm = true → writable OnHost m Y1 = true →
  all_finite OnHost m Y = true →
  height X = width X → height Y = width X →
  height Zm = height Y → width Zm = width Y →
  height Y1 = height Y → width Y1 = width Y →
  blk_of X ≠ blk_of Y → blk_of Zm ≠ blk_of X → blk_of Zm ≠ blk_of Y →
  blk_of Y1 ≠ blk_of X → blk_of Y1 ≠ blk_of Y → blk_of Y1 ≠ blk_of Zm →
  ∃ m0 m1 m2,
    MatFillX X m = Done tt m0
    ∧ antidiagonal (elem OnHost m0 X) (width X)
    ∧ MatMultHost X Y Zm m0 = Done tt m1
    ∧ MatMultHost X Zm Y1 m1 = Done tt m2
    ∧ (∀ r c, 0 ≤ r < height Y → 0 ≤ c < width Y →
         MatGetElement OnHost m1 Zm r c
         = Some (F32.canon (elem OnHost m Y (height Y - 1 - r) c)))
    ∧ (∀ r c, 0 ≤ r < height Y → 0 ≤ c < width Y →
         MatGetElement OnHost m2 Y r c = Some (elem OnHost m Y r c)
         ∧ MatGetElement OnHost m2 Y1 r c
           = Some (F32.canon (elem OnHost m Y r c))
         ∧ F32.eqb (F32.canon (elem OnHost m Y r c)) (elem OnHost m Y r c)
           = true)
    ∧ MatEqual Y1 Y F32.tol_1e_10 m2 = Some true
    ∧ ∃ b, MatEqual Y Zm F32.tol_1e_10 m1 = Some b
           ∧ (b = false ↔
              ∃ r c, 0 ≤ r < height Y ∧ 0 ≤ c < width Y
                     ∧ within_tol F32.tol_1e_10 (elem OnHost m Y r c)
                         (elem OnHost m Y (height Y - 1 - r) c) = false).
Proof.
  intros HX HY HZ HY1 Hfin EX EY EZh EZw EY1h EY1w
    HXY HZX HZY HY1X HY1Y HY1Z.
  set (y := elem OnHost m Y).
  assert (∀ r c, 0 ≤ r < height Y → 0 ≤ c < width Y → finite (y r c) = true)
    as Hy.
  { intros r c Hr Hc. apply (all_finite_spec OnHost m Y); [done|].
    apply cells_elem. lia. }
  (* X is filled *)
  destruct (MatFillX_updated X m HX) as (m0 & Hrun0 & Hu0).
  destruct (updated_readable OnHost m m0 X _ HX Hu0) as [HX0 HelX0].
  destruct (updated_readable_other OnHost m m0 X _ _ Y Hu0 HXY HY)
    as [HY0 HelY0].
  pose proof (updated_writable OnHost m m0 X _ _ Zm Hu0 HZ) as HZ0.
  pose proof (updated_writable OnHost m m0 X _ _ Y1 Hu0 HY1) as HY10.
  (* Zm = X * Y *)
  destruct (MatMultHost_updated X Y Zm m0) as (m1 & Hrun1 & Hu1);
    try done; try lia.
  destruct (updated_readable OnHost m0 m1 Zm _ HZ0 Hu1) as [HZ1 HelZ1].
  destruct (updated_readable_other OnHost m0 m1 Zm _ _ X Hu1 HZX HX0)
    as [HX1 HelX1].
  destruct (updated_readable_other OnHost m0 m1 Zm _ _ Y Hu1 HZY HY0)
    as [HY1' HelY1].
  pose proof (updated_writable OnHost m0 m1 Zm _ _ Y1 Hu1 HY10) as HY11.
  assert (∀ r c, 0 ≤ r < height Y → 0 ≤ c < width Y →
            elem OnHost m1 Zm r c = F32.canon (y (height Y - 1 - r) c))
    as HZval.
  { intros r c Hr Hc. rewrite HelZ1 by (apply cells_elem; lia).
    rewrite (antidiagonal_product X Y m0 y r c EX EY HelX0); [| | |done].
    - apply reversed_finite; [done|]. intros k Hk. by apply Hy.
    - intros k Hk. apply HelY0.
    - intros k Hk. by apply finite_spec, Hy. }
  (* Y1 = X * Zm *)
  destruct (MatMultHost_updated X Zm Y1 m1) as (m2 & Hrun2 & Hu2);
    try done; try lia.
  destruct (updated_readable OnHost m1 m2 Y1 _ HY11 Hu2) as [HY12 HelY12].
  assert (blk_of Y1 ≠ blk_of Y) as HY1Y' by done.
  destruct (updated_readable_other OnHost m1 m2 Y1 _ _ Y Hu2 HY1Y' HY1')
    as [HY2 HelY2].
  assert (∀ r c, 0 ≤ r < height Y → 0 ≤ c < width Y →
            elem OnHost m2 Y1 r c = F32.canon (y r c)) as HY1val.
  { intros r c Hr Hc. rewrite HelY12 by (apply cells_elem; lia).
    rewrite (antidiagonal_product X Zm m1
               (λ k c, F32.canon (y (height Y - 1 - k) c)) r c EX).
    - rewrite EZh, reversed_finite; [| lia |].
      + rewrite canon_idem. do 2 f_equal. lia.
      + intros k Hk. apply finite_canon, Hy; lia.
    - lia.
    - intros r' k Hr'. rewrite HelX1. by apply HelX0.
    - intros k Hk. apply HZval; lia.
    - intros k Hk. apply finite_spec, finite_canon, Hy; lia.
    - lia. }
  exists m0, m1, m2.
  split; [done|]. split.
  { intros r c Hr Hc. rewrite HelX0 by (apply cells_elem; lia). done. }
  split; [done|]. split; [done|]. split.
  { intros r c Hr Hc. rewrite <- HZval by done.
    apply readable_spec; [done|]. apply cells_elem. lia. }
  split.
  { intros r c Hr Hc. split; [|split].
    - unfold y. rewrite <- (HelY0 r c), <- (HelY1 r c), <- (HelY2 r c).
      apply readable_spec; [done|]. by apply cells_elem.
    - rewrite <- HY1val by done.
      apply readable_spec; [done|]. apply cells_elem. lia.
    - apply eqb_canon. by apply Hy. }
  split.
  { rewrite MatEqual_run by done. f_equal.
    apply forallb_seqZ. intros r Hr. apply forallb_seqZ. intros c Hc.
    rewrite HY1val by lia. rewrite HelY2, HelY1, HelY0.
    apply within_tol_canon. }
  eexists. split; [by apply MatEqual_run|].
  rewrite forallb_seqZ_false. split.
  - intros (r & Hr & (c & Hc & Hrc)%forallb_seqZ_false).
    exists r, c. split; [done|]. split; [done|].
    rewrite HZval, HelY1, HelY0 in Hrc by done.
    by rewrite within_tol_canon_r in Hrc.
  - intros (r & c & Hr & Hc & Hrc). exists r. split; [done|].
    apply forallb_seqZ_false. exists c. split; [done|].
    rewrite HZval, HelY1, HelY0 by done.
    by rewrite within_tol_canon_r.
Qed.

Lemma antidiagonal_round_trip_witness :
  ∃ m0 m1 m2,
    MatFillX Scenario.X Scenario.m = Done tt m0
    ∧ MatMultHost Scenario.X Scenario.Y Scenario.Z m0 = Done tt m1
    ∧ MatMultHost Scenario.X Scenario.Z Scenario.Y1 m1 = Done tt m2
    ∧ MatEqual Scenario.Y1 Scenario.Y F32.tol_1e_10 m2 = Some true.
Proof.
  destruct (antidiagonal_round_trip
              Scenario.X Scenario.Y Scenario.Z Scenario.Y1 Scenario.m)
    as (m0 & m1 & m2 & H0 & _ & H1 & H2 & _ & _ & H3 & _); [by vm_compute..|].
  exists m0, m1, m2. split; [exact H0|]. split; [exact H1|].
  split; [exact H2|exact H3].
Defined.
